(** * driwwwle-v2: the posts router ([api/posts.js])

    A shallow embedding of the Express router of [api/posts.js] over a
    document store, and the properties of its routes: ownership checks,
    like/save toggling, pagination, the 400/401/404 answers and the
    notification calls. *)

From stdpp Require Import gmap strings list sorting.
From Stdlib Require Import ZArith Ascii.

Local Open Scope string_scope.
Local Open Scope list_scope.
Local Open Scope Z_scope.

(** ** The JavaScript array and number primitives the routes use *)

Module JS.

Section Array.
Context {A : Type}.
Implicit Types (l : list A) (x : A).

(** [arr.findIndex(pred)]: the index of the first element satisfying the
    predicate, [-1] when there is none. *)
Definition findIndex (P : A → Prop) `{!∀ x, Decision (P x)} l : Z :=
  match list_find P l with
  | Some (i, _) => Z.of_nat i
  | None => -1
  end.

(** [arr.find(pred)]: the first element satisfying the predicate. *)
Definition find (P : A → Prop) `{!∀ x, Decision (P x)} l : option A :=
  snd <$> list_find P l.

(** [arr.splice(index, 1)]: a negative index counts from the end of the
    array, an index past the end is clamped to the length; one element is
    removed from there when there is one. *)
Definition splice1 (index : Z) l : list A :=
  let len := Z.of_nat (length l) in
  let start := if decide (index < 0) then Z.max (len + index) 0
               else Z.min index len in
  delete (Z.to_nat start) l.

(** [arr.unshift(x)] *)
Definition unshift x l : list A := x :: l.
End Array.

(** [parseInt(s, 10)]: leading white space is skipped, then an optional sign,
  then the longest run of decimal digits is read; [None] stands for [NaN]
  (no digit could be read).  Numbers are the mathematical integers: the
  routes' arithmetic is exact on them below 2^53.  White space is the ASCII
  part of the language's white space. *)
Definition is_space (c : ascii) : bool :=
let n := nat_of_ascii c in
bool_decide (n = 32 ∨ 9 ≤ n ≤ 13)%nat.

Definition digit_of (c : ascii) : option Z :=
let n := Z.of_nat (nat_of_ascii c) in
if decide (48 ≤ n ≤ 57) then Some (n - 48) else None.

Fixpoint skip_space (s : string) : string :=
match s with
| String c s' => if is_space c then skip_space s' else s
| EmptyString => s
end.

(** The digits read so far are accumulated in [acc]; [None] until the first
  digit. *)
Fixpoint read_digits (acc : option Z) (s : string) : option Z :=
match s with
| String c s' =>
    match digit_of c with
    | Some d => read_digits (Some (10 * default 0 acc + d)) s'
    | None => acc
    end
| EmptyString => acc
end.

Definition parseInt10 (s : string) : option Z :=
match skip_space s with
| String "-" s' => Z.opp <$> read_digits None s'
| String "+" s' => read_digits None s'
| s' => read_digits None s'
end.

(** [parseInt(q, 10) || d] on a query parameter that may be absent
  ([undefined] parses to [NaN]); [NaN] and [0] are falsy. *)
Definition parseInt_or (q : option string) (d : Z) : Z :=
match q ≫= parseInt10 with
| Some n => if decide (n = 0) then d else n
| None => d
end.

End JS.

(** ** Documents

    The schemas ([models/Post.model] and the like) are read off the fields
    the router touches.  Object ids are their string form, which is what the
    routes compare ([post.user.toString() === req.userId]). *)

Record Like := { like_user : string }.

Record Comment := {
  comment_id : string;
  comment_user : string;
  comment_text : string;
  comment_date : Z;
}.

Record PostDoc := {
  user : string;
  title : string;
  description : string;
  images : list string;
  liveDemo : string;
  techStack : list string;
  sourceCode : option string;
  likes : list Like;
  saves : list Like;
  comments : list Comment;
  views : Z;
  createdAt : Z;
}.

Record UserDoc := { username : string; role : string }.

Record Following := { following_user : string }.
Record FollowerDoc := { follower_user : string; following : list Following }.

Global Instance Like_eq_dec : EqDecision Like.
Proof. solve_decision. Defined.
Global Instance Comment_eq_dec : EqDecision Comment.
Proof. solve_decision. Defined.
Global Instance PostDoc_eq_dec : EqDecision PostDoc.
Proof. solve_decision. Defined.
Global Instance UserDoc_eq_dec : EqDecision UserDoc.
Proof. solve_decision. Defined.

(** Assignments to one field of a post ([post.likes = ...], [post.views++]). *)
Definition set_likes (l : list Like) (p : PostDoc) : PostDoc :=
  {| user := user p; title := title p; description := description p;
     images := images p; liveDemo := liveDemo p; techStack := techStack p;
     sourceCode := sourceCode p; likes := l; saves := saves p;
     comments := comments p; views := views p; createdAt := createdAt p |}.

Definition set_saves (l : list Like) (p : PostDoc) : PostDoc :=
  {| user := user p; title := title p; description := description p;
     images := images p; liveDemo := liveDemo p; techStack := techStack p;
     sourceCode := sourceCode p; likes := likes p; saves := l;
     comments := comments p; views := views p; createdAt := createdAt p |}.

Definition set_comments (l : list Comment) (p : PostDoc) : PostDoc :=
  {| user := user p; title := title p; description := description p;
     images := images p; liveDemo := liveDemo p; techStack := techStack p;
     sourceCode := sourceCode p; likes := likes p; saves := saves p;
     comments := l; views := views p; createdAt := createdAt p |}.

Definition set_views (v : Z) (p : PostDoc) : PostDoc :=
  {| user := user p; title := title p; description := description p;
     images := images p; liveDemo := liveDemo p; techStack := techStack p;
     sourceCode := sourceCode p; likes := likes p; saves := saves p;
     comments := comments p; views := v; createdAt := createdAt p |}.

(** ** Notification helpers

    Modelled from the spec: [server-utils/notifications] is not part of the
    sources; its four helpers are "fire-and-forget helper calls", so a call is
    recorded with its arguments and returns. *)
Inductive Notification :=
| NewLike (userToNotify userId postId : string)
| RemoveLike (userToNotify userId postId : string)
| NewComment (userToNotify userId postId commentId text : string)
| RemoveComment (userToNotify userId postId commentId : string).

(** ** The world a request runs in *)

Inductive exn :=
| TypeError (what : string)
| SyntaxError (what : string)
| StoreError (what : string).

Record World := {
  Posts : gmap string PostDoc;
  Users : gmap string UserDoc;
  Followers : list FollowerDoc;
  notified : list Notification;   (* calls to the helpers, oldest first *)
  console : list exn;             (* console.error, oldest first *)
}.

Definition set_Posts (m : gmap string PostDoc) (w : World) : World :=
  {| Posts := m; Users := Users w; Followers := Followers w;
     notified := notified w; console := console w |}.

Definition add_notified (n : Notification) (w : World) : World :=
  {| Posts := Posts w; Users := Users w; Followers := Followers w;
     notified := notified w ++ [n]; console := console w |}.

Definition add_console (e : exn) (w : World) : World :=
  {| Posts := Posts w; Users := Users w; Followers := Followers w;
     notified := notified w; console := console w ++ [e] |}.

(** ** The monad of a route body: state, and exceptions that keep the state
    (a write that happened before a throw stays written). *)

Inductive result (A : Type) := Ok (a : A) | Threw (e : exn).
Arguments Ok {A} a.
Arguments Threw {A} e.

Definition M (A : Type) : Type := World → World * result A.

Global Instance M_ret : MRet M := λ A a w, (w, Ok a).
Global Instance M_bind : MBind M := λ A B f m w,
  match m w with
  | (w', Ok a) => f a w'
  | (w', Threw e) => (w', Threw e)
  end.

Definition throw {A} (e : exn) : M A := λ w, (w, Threw e).
Definition get_world : M World := λ w, (w, Ok w).
Definition modify (f : World → World) : M unit := λ w, (f w, Ok tt).

(** ** Responses *)

Inductive Body :=
| Msg (msg : string)
| JPost (post : PostDoc)
| JPostPopulated (post : PostDoc) (post_user : option UserDoc)
    (comment_users : list (option UserDoc))
| JPage (posts : list (string * PostDoc * option UserDoc)) (next : option Z)
| JPosts (posts : list (string * PostDoc * option UserDoc))
| JLikes (l : list (Like * option UserDoc))
| JComments (l : list (Comment * option UserDoc)).

Record Response := { status : Z; json : Body }.

Definition res (st : Z) (b : Body) : M Response :=
  mret {| status := st; json := b |}.

(** [try { ... } catch (err) { console.error(err); res.status(500)... }] *)
Definition try_catch (body : M Response) (w : World) : World * Response :=
  match body w with
  | (w', Ok r) => (w', r)
  | (w', Threw e) =>
      (add_console e w', {| status := 500; json := Msg "Server error" |})
  end.

(** ** The models: what the routes ask of the document store

    A collection is a finite map from [_id] to document.  The store's own
    failures (a lost connection) are outside the model; the failures the
    model keeps are the ones a request can provoke. *)

Module Post.
(** [Post.findById(id)].  The id is taken to be an ObjectId in its string
    form; the cast of any other string, which the store refuses before it
    looks anything up, is not modelled, and what is proved of an id that is
    not stored is stated for ids of that form ([is_ObjectId] below). *)
Definition findById (id : string) : M (option PostDoc) :=
  λ w, (w, Ok (Posts w !! id)).

(** [post.save()] on a document read from the store. *)
Definition save (id : string) (p : PostDoc) : M PostDoc :=
  λ w, (set_Posts (<[id := p]> (Posts w)) w, Ok p).

(** [new Post(obj).save()]: the store refuses a second document under an
    [_id] it already holds. *)
Definition create (id : string) (p : PostDoc) : M PostDoc :=
  λ w, match Posts w !! id with
       | Some _ => (w, Threw (StoreError "duplicate key"))
       | None => (set_Posts (<[id := p]> (Posts w)) w, Ok p)
       end.

(** [post.remove()] *)
Definition remove (id : string) : M unit :=
  λ w, (set_Posts (delete id (Posts w)) w, Ok tt).

(** A query under construction: [Post.find(cond).skip(n).limit(n).sort(...)]. *)
Record Query := {
  q_cond : PostDoc → bool;
  q_skip : Z;
  q_limit : Z;
  q_sorted : bool;
}.

Definition find (cond : PostDoc → bool) : Query :=
  {| q_cond := cond; q_skip := 0; q_limit := 0; q_sorted := false |}.
Definition skip (n : Z) (q : Query) : Query :=
  {| q_cond := q_cond q; q_skip := n; q_limit := q_limit q;
     q_sorted := q_sorted q |}.
Definition limit (n : Z) (q : Query) : Query :=
  {| q_cond := q_cond q; q_skip := q_skip q; q_limit := n;
     q_sorted := q_sorted q |}.
(** [.sort({ createdAt: -1 })] *)
Definition sort_createdAt_desc (q : Query) : Query :=
  {| q_cond := q_cond q; q_skip := q_skip q; q_limit := q_limit q;
     q_sorted := true |}.

Definition newer_first (a b : string * PostDoc) : Prop :=
  createdAt b.2 ≤ createdAt a.2.

Global Instance newer_first_dec a b : Decision (newer_first a b).
Proof. unfold newer_first. apply _. Defined.

Definition matching (cond : PostDoc → bool) (w : World)
  : list (string * PostDoc) :=
  filter (λ d, cond d.2 = true) (map_to_list (Posts w)).

(** Running the query: whatever the order of the calls that built it, the
    store sorts first, then skips, then limits.  A negative skip is
    refused; a limit of 0 is no limit and a negative one counts as its
    absolute value. *)
Definition exec (q : Query) : M (list (string * PostDoc)) := λ w,
  if decide (q_skip q < 0) then (w, Threw (StoreError "negative skip"))
  else
    let docs := matching (q_cond q) w in
    let docs := if q_sorted q then merge_sort newer_first docs else docs in
    let docs := drop (Z.to_nat (q_skip q)) docs in
    let docs := if decide (q_limit q = 0) then docs
                else take (Z.abs_nat (q_limit q)) docs in
    (w, Ok docs).

(** [Post.countDocuments(cond)] *)
Definition countDocuments (cond : PostDoc → bool) : M Z :=
  λ w, (w, Ok (Z.of_nat (length (matching cond w)))).

(** [.populate('user')]: the owner's document, [None] ([null]) when the
    user is gone. *)
Definition populate_user (docs : list (string * PostDoc))
  : M (list (string * PostDoc * option UserDoc)) :=
  λ w, (w, Ok ((λ d, (d, Users w !! user d.2)) <$> docs)).

(** [.populate('comments.user')] and [.populate('likes.user')] *)
Definition populate_comments (cs : list Comment)
  : M (list (Comment * option UserDoc)) :=
  λ w, (w, Ok ((λ c, (c, Users w !! comment_user c)) <$> cs)).
Definition populate_likes (ls : list Like)
  : M (list (Like * option UserDoc)) :=
  λ w, (w, Ok ((λ l, (l, Users w !! like_user l)) <$> ls)).
End Post.

Module User.
Definition findById (id : string) : M (option UserDoc) :=
  λ w, (w, Ok (Users w !! id)).
End User.

Module Follower.
(** [Follower.findOne({ user: id })] *)
Definition findOne (id : string) : M (option FollowerDoc) :=
  λ w, (w, Ok (JS.find (λ f, follower_user f = id) (Followers w))).
End Follower.

(** Calling a notification helper. *)
Definition notify (n : Notification) : M unit := modify (add_notified n).

Definition newLikeNotification (userToNotify userId postId : string) :=
  notify (NewLike userToNotify userId postId).
Definition removeLikeNotification (userToNotify userId postId : string) :=
  notify (RemoveLike userToNotify userId postId).
Definition newCommentNotification
    (userToNotify userId postId commentId text : string) :=
  notify (NewComment userToNotify userId postId commentId text).
Definition removeCommentNotification
    (userToNotify userId postId commentId : string) :=
  notify (RemoveComment userToNotify userId postId commentId).

(** ** The routes of [api/posts.js]

    Each route runs after its middleware: [auth] has put the requester's id
    in [req.userId], the upload middleware has put the stored files in
    [req.files].  The values the environment hands to a request (a fresh
    [_id] or [uuid()], the clock) are arguments of the route. *)

Record File := { path : string }.

Record PostBody := {
  body_title : string;
  body_description : string;
  body_liveDemo : string;
  body_sourceCode : option string;
  body_techStack : string;
}.

Definition Handler : Type := World → World * Response.

(** [post.user.toString() === req.userId || user.role === 'root']: the role
    is read only when the first test fails, and reading it off a missing
    user throws. *)
Definition owner_or_root (owner userId : string) (u : option UserDoc)
  : M bool :=
  if decide (owner = userId) then mret true
  else match u with
       | Some u => mret (bool_decide (role u = "root"))
       | None => throw (TypeError "Cannot read property 'role' of null")
       end.

Section Router.
(** [JSON.parse] on the [techStack] field: [Some l] when it yields the array
    of strings [l], [None] when it throws.  A text that parses to anything
    else is outside this parameter. *)
Context (JSON_parse : string → option (list string)).

(** POST /api/posts *)
Definition post_posts (userId : string) (body : PostBody)
    (files : list File) (newId : string) (now : Z) : Handler :=
  if decide (Z.of_nat (length files) < 1) then
    λ w, (w, {| status := 400; json := Msg "Atleast one image is required" |})
  else try_catch (
    stack ← match JSON_parse (body_techStack body) with
            | Some t => mret t
            | None => throw (SyntaxError "JSON.parse")
            end;
    let postObj :=
      {| user := userId; title := body_title body;
         description := body_description body;
         images := path <$> files; liveDemo := body_liveDemo body;
         techStack := stack;
         sourceCode := match body_sourceCode body with
                       | Some s => if decide (s = "") then None else Some s
                       | None => None
                       end;
         likes := []; saves := []; comments := []; views := 0;
         createdAt := now |} in
    post ← Post.create newId postObj;
    res 201 (JPost post)).

(** GET /api/posts *)
Definition get_posts (q_page q_limit : option string) : Handler :=
  try_catch (
    let page := JS.parseInt_or q_page 1 in
    let limit := JS.parseInt_or q_limit 12 in
    let startIndex := (page - 1) * limit in
    let endIndex := page * limit in
    total ← Post.countDocuments (λ _, true);
    docs ← Post.exec (Post.sort_createdAt_desc (Post.limit limit
             (Post.skip startIndex (Post.find (λ _, true)))));
    posts ← Post.populate_user docs;
    let next := if decide (endIndex < total) then Some (page + 1) else None in
    res 200 (JPage posts next)).

(** GET /api/posts/feed *)
Definition get_feed (userId : string) (q_page q_limit : option string)
  : Handler :=
  try_catch (
    let page := JS.parseInt_or q_page 1 in
    let limit := JS.parseInt_or q_limit 12 in
    let startIndex := (page - 1) * limit in
    let endIndex := page * limit in
    follower ← Follower.findOne userId;
    match follower with
    | None => throw (TypeError "Cannot read property 'following' of null")
    | Some follower =>
        let followingUsers := following_user <$> following follower in
        let cond := λ p, bool_decide (user p ∈ followingUsers) in
        total ← Post.countDocuments cond;
        docs ← Post.exec (Post.sort_createdAt_desc (Post.limit limit
                 (Post.skip startIndex (Post.find cond))));
        posts ← Post.populate_user docs;
        let next :=
          if decide (endIndex < total) then Some (page + 1) else None in
        res 200 (JPage posts next)
    end).

(** GET /api/posts/saves *)
Definition get_saves (userId : string) : Handler :=
  try_catch (
    docs ← Post.exec (Post.find
             (λ p, bool_decide (userId ∈ like_user <$> saves p)));
    posts ← Post.populate_user docs;
    res 200 (JPosts posts)).

(** GET /api/posts/:postId *)
Definition get_post (postId : string) : Handler :=
  try_catch (
    post ← Post.findById postId;
    match post with
    | None => res 404 (Msg "Post not found")
    | Some post =>
        owner ← User.findById (user post);
        commenters ← Post.populate_comments (comments post);
        let post := set_views (views post + 1) post in
        post ← Post.save postId post;
        res 200 (JPostPopulated post owner (snd <$> commenters))
    end).

(** DELETE /api/posts/:postId *)
Definition delete_post (userId postId : string) : Handler :=
  try_catch (
    post ← Post.findById postId;
    match post with
    | None => res 404 (Msg "Post not found")
    | Some post =>
        requester ← User.findById userId;
        allowed ← owner_or_root (user post) userId requester;
        if allowed : bool then
          Post.remove postId;;
          res 200 (Msg "Post deleted")
        else res 401 (Msg "You are not authorized to delete this post")
    end).

(** PUT /api/posts/like/:postId *)
Definition put_like (userId postId : string) : Handler :=
  try_catch (
    post ← Post.findById postId;
    match post with
    | None => res 404 (Msg "Post not found")
    | Some post =>
        let isLiked := bool_decide
          (0 < length (filter (λ like, like_user like = userId)
                         (likes post)))%nat in
        if isLiked then
          let index :=
            JS.findIndex (λ like, like_user like = userId) (likes post) in
          let post := set_likes (JS.splice1 index (likes post)) post in
          post ← Post.save postId post;
          (if decide (user post ≠ userId)
           then removeLikeNotification (user post) userId postId
           else mret tt);;
          res 200 (JPost post)
        else
          let post :=
            set_likes (JS.unshift {| like_user := userId |} (likes post))
              post in
          post ← Post.save postId post;
          (if decide (user post ≠ userId)
           then newLikeNotification (user post) userId postId
           else mret tt);;
          res 200 (JPost post)
    end).

(** PUT /api/posts/save/:postId *)
Definition put_save (userId postId : string) : Handler :=
  try_catch (
    post ← Post.findById postId;
    match post with
    | None => res 404 (Msg "Post not found")
    | Some post =>
        let isSaved := bool_decide
          (0 < length (filter (λ save, like_user save = userId)
                         (saves post)))%nat in
        if isSaved then
          let index :=
            JS.findIndex (λ save, like_user save = userId) (saves post) in
          let post := set_saves (JS.splice1 index (saves post)) post in
          post ← Post.save postId post;
          res 200 (JPost post)
        else
          let post :=
            set_saves (JS.unshift {| like_user := userId |} (saves post))
              post in
          post ← Post.save postId post;
          res 200 (JPost post)
    end).

(** GET /api/posts/like/:postId *)
Definition get_likes (postId : string) : Handler :=
  try_catch (
    post ← Post.findById postId;
    match post with
    | None => res 404 (Msg "Post not found")
    | Some post =>
        ls ← Post.populate_likes (likes post);
        res 200 (JLikes ls)
    end).

(** POST /api/posts/comment/:postId *)
Definition post_comment (userId postId text : string)
    (uuid : string) (now : Z) : Handler :=
  try_catch (
    if decide (Z.of_nat (String.length text) < 1) then
      res 400 (Msg "Comment must be atleast 1 character long")
    else
      post ← Post.findById postId;
      match post with
      | None => res 404 (Msg "Post not found")
      | Some post =>
          let comment :=
            {| comment_id := uuid; comment_user := userId;
               comment_text := text; comment_date := now |} in
          let post :=
            set_comments (JS.unshift comment (comments post)) post in
          post ← Post.save postId post;
          cs ← Post.populate_comments (comments post);
          (if decide (user post ≠ userId)
           then newCommentNotification (user post) userId postId
                  (comment_id comment) text
           else mret tt);;
          res 201 (JComments cs)
      end).

(** DELETE /api/posts/comment/:postId/:commentId *)
Definition delete_comment (userId postId commentId : string) : Handler :=
  try_catch (
    post ← Post.findById postId;
    match post with
    | None => res 404 (Msg "Post not found")
    | Some post =>
        match JS.find (λ c, comment_id c = commentId) (comments post) with
        | None => res 404 (Msg "Comment not found")
        | Some comment =>
            requester ← User.findById userId;
            allowed ← owner_or_root (comment_user comment) userId requester;
            if allowed : bool then
              let index :=
                JS.findIndex (λ c, comment_id c = commentId)
                  (comments post) in
              let post :=
                set_comments (JS.splice1 index (comments post)) post in
              post ← Post.save postId post;
              cs ← Post.populate_comments (comments post);
              (if decide (user post ≠ userId)
               then removeCommentNotification (user post) userId postId
                      (comment_id comment)
               else mret tt);;
              res 200 (JComments cs)
            else
              res 401 (Msg "You are not authorized to delete this comment")
        end
    end).

(** A request that reached the router, and the route that serves it. *)
Inductive Request :=
| CreatePost (userId : string) (body : PostBody) (files : list File)
    (newId : string) (now : Z)
| GetPosts (q_page q_limit : option string)
| GetFeed (userId : string) (q_page q_limit : option string)
| GetSaves (userId : string)
| GetPost (postId : string)
| DeletePost (userId postId : string)
| PutLike (userId postId : string)
| PutSave (userId postId : string)
| GetLikes (postId : string)
| PostComment (userId postId text : string) (uuid : string) (now : Z)
| DeleteComment (userId postId commentId : string).

Definition handle (r : Request) : Handler :=
  match r with
  | CreatePost u b f i t => post_posts u b f i t
  | GetPosts p l => get_posts p l
  | GetFeed u p l => get_feed u p l
  | GetSaves u => get_saves u
  | GetPost i => get_post i
  | DeletePost u i => delete_post u i
  | PutLike u i => put_like u i
  | PutSave u i => put_save u i
  | GetLikes i => get_likes i
  | PostComment u i t c n => post_comment u i t c n
  | DeleteComment u i c => delete_comment u i c
  end.
End Router.

(** ** The words of the specification

    The toggle as the specification describes it ("a linear scan-and-splice
    over an embedded array"), the ownership predicate and the offset
    arithmetic of pagination; the routes above are compared with these. *)

Definition has_entry (u : string) (l : list Like) : Prop :=
  u ∈ like_user <$> l.

Global Instance has_entry_dec u l : Decision (has_entry u l).
Proof. unfold has_entry. apply _. Defined.

(** The entry at the first matching index is spliced out. *)
Definition spliced_first {A} (P : A → Prop) (l l' : list A) : Prop :=
  ∃ l1 x l2, l = l1 ++ x :: l2 ∧ P x ∧ Forall (λ y, ¬ P y) l1 ∧ l' = l1 ++ l2.

Definition toggled (u : string) (l l' : list Like) : Prop :=
  (has_entry u l ∧ spliced_first (λ e, like_user e = u) l l')
  ∨ (¬ has_entry u l ∧ l' = {| like_user := u |} :: l).

(** Each user id occurs at most once. *)
Definition unique_users (l : list Like) : Prop := NoDup (like_user <$> l).

(** Skip [(p - 1) * l] documents of the newest-first listing, take at most
    [l]. *)
Definition page_slice {A} (p l : Z) (docs : list A) : list A :=
  take (Z.to_nat l) (drop (Z.to_nat ((p - 1) * l)) docs).

Definition next_page (p l total : Z) : option Z :=
  if decide (p * l < total) then Some (p + 1) else None.

(** The first match removed, by recursion on the array. *)
Fixpoint remove_first {A} (P : A → Prop) `{!∀ x, Decision (P x)}
    (l : list A) : list A :=
  match l with
  | [] => []
  | x :: l' => if decide (P x) then l' else x :: remove_first P l'
  end.

Definition toggle (u : string) (l : list Like) : list Like :=
  if decide (has_entry u l) then remove_first (λ e, like_user e = u) l
  else {| like_user := u |} :: l.

Definition not_found : Response :=
  {| status := 404; json := Msg "Post not found" |}.

(** The ownership check, for the author of a post or of a comment. *)
Definition may_delete (author userId : string) (requester : UserDoc) : Prop :=
  author = userId ∨ role requester = "root".

Global Instance may_delete_dec a u r : Decision (may_delete a u r).
Proof. unfold may_delete. apply _. Defined.

(** The owner's document next to each listed post ([populate('user')]). *)
Definition with_owner (w : World) (d : string * PostDoc)
  : string * PostDoc * option UserDoc := (d, Users w !! user d.2).

(** ** What a request can do to the collection of posts

    Nothing, a new post with empty arrays, a removal, an update that keeps
    the likes and the saves, or one of the two toggles. *)

Inductive posts_step (r : Request) (m : gmap string PostDoc)
  : gmap string PostDoc → Prop :=
| step_none : posts_step r m m
| step_create id p :
    m !! id = None → likes p = [] → saves p = [] →
    posts_step r m (<[id := p]> m)
| step_remove id : posts_step r m (delete id m)
| step_update id p p' :
    m !! id = Some p → likes p' = likes p → saves p' = saves p →
    posts_step r m (<[id := p']> m)
| step_like u id p :
    r = PutLike u id → m !! id = Some p →
    posts_step r m (<[id := set_likes (toggle u (likes p)) p]> m)
| step_save u id p :
    r = PutSave u id → m !! id = Some p →
    posts_step r m (<[id := set_saves (toggle u (saves p)) p]> m).

(** Every stored post has one entry per user in both arrays. *)
Definition store_unique (m : gmap string PostDoc) : Prop :=
  ∀ id p, m !! id = Some p → unique_users (likes p) ∧ unique_users (saves p).

(** The helper calls a request adds to the record. *)
Definition notifies (h : Handler) (w : World) (ns : list Notification)
  : Prop :=
  notified (h w).1 = notified w ++ ns.

(** ** A small store to run the routes on *)

Module Sample.
Definition entry (u : string) : Like := {| like_user := u |}.

Definition c1 : Comment :=
  {| comment_id := "c1"; comment_user := "bob"; comment_text := "nice";
     comment_date := 7 |}.

Definition post (owner : string) (ls : list Like) (cs : list Comment)
    (at_ : Z) : PostDoc :=
  {| user := owner; title := "title"; description := "description";
     images := ["uploads/1.png"]; liveDemo := "https://demo";
     techStack := ["js"]; sourceCode := None; likes := ls; saves := ls;
     comments := cs; views := 3; createdAt := at_ |}.

Definition p1 : PostDoc := post "alice" [entry "carol"; entry "bob"] [c1] 10.
Definition p2 : PostDoc := post "bob" [] [] 20.
Definition p3 : PostDoc := post "carol" [entry "alice"] [] 30.

Definition member : UserDoc := {| username := "member"; role := "user" |}.
Definition admin : UserDoc := {| username := "admin"; role := "root" |}.

Definition world : World :=
  {| Posts := {[ "p1" := p1; "p2" := p2; "p3" := p3 ]};
     Users := {[ "alice" := member; "bob" := member; "carol" := member;
                 "dave" := admin ]};
     Followers :=
       [ {| follower_user := "alice";
            following := [ {| following_user := "bob" |};
                           {| following_user := "carol" |} ] |} ];
     notified := []; console := [] |}.
End Sample.

(** ** Reading a response, and requests in sequence *)

(** The [posts] and [next] fields of a listing. *)
Definition body_posts (b : Body)
  : list (string * PostDoc * option UserDoc) :=
  match b with
  | JPage posts _ => posts
  | JPosts posts => posts
  | _ => []
  end.

Definition body_next (b : Body) : option Z :=
  match b with
  | JPage _ next => next
  | _ => None
  end.

(** GET /api/posts/:postId, [n] times over. *)
Fixpoint get_post_times (n : nat) (postId : string) (w : World) : World :=
  match n with
  | O => w
  | S n' => get_post_times n' postId (get_post postId w).1
  end.

(** The first two arguments of every helper: who is notified, and whose
    action it is about. *)
Definition userToNotify (n : Notification) : string :=
  match n with
  | NewLike u _ _ | RemoveLike u _ _
  | NewComment u _ _ _ _ | RemoveComment u _ _ _ => u
  end.

Definition actor (n : Notification) : string :=
  match n with
  | NewLike _ u _ | RemoveLike _ u _
  | NewComment _ u _ _ _ | RemoveComment _ u _ _ => u
  end.

Definition notified_post (n : Notification) : string :=
  match n with
  | NewLike _ _ i | RemoveLike _ _ i
  | NewComment _ _ i _ _ | RemoveComment _ _ i _ => i
  end.

(** ** The comment item of the front end

    The component receives a comment as the routes send it (its author
    populated), the user the page is rendered for ([null] when nobody is
    logged in) and the post's id. *)

Module CommentItem.
(** Whether the delete icon is rendered:
    [user && user._id === comment.user._id].  There is no item at all
    ([None]) when the author's document is gone, since the item reads
    [comment.user.username] first; the populated author's [_id] is the id
    the comment holds. *)
Definition trash_icon (user : option string)
    (comment : Comment * option UserDoc) : option bool :=
  match comment.2 with
  | None => None
  | Some _ =>
      Some (match user with
            | Some user_id => bool_decide (user_id = comment_user comment.1)
            | None => false
            end)
  end.

(** The mutation behind the icon: DELETE
    /api/posts/comment/${postId}/${comment._id}, sent with the token of the
    browser's user. *)
Definition mutation (token_user postId : string)
    (comment : Comment * option UserDoc) : Handler :=
  delete_comment token_user postId (comment_id comment.1).
End CommentItem.

(** ** Ids and request texts as they arrive *)

(** An ObjectId in its string form: 24 hexadecimal digits. *)
Definition is_hex (c : ascii) : bool :=
  let n := nat_of_ascii c in
  bool_decide (48 ≤ n ≤ 57 ∨ 97 ≤ n ≤ 102 ∨ 65 ≤ n ≤ 70)%nat.

Fixpoint all_hex (s : string) : bool :=
  match s with
  | EmptyString => true
  | String c s' => is_hex c && all_hex s'
  end.

Definition is_ObjectId (s : string) : bool :=
  bool_decide (String.length s = 24%nat) && all_hex s.

Module Wire.
(** An ObjectId no sample post is stored under. *)
Definition absent_id : string := "5f8d0d55b54764421b7156c9".

(** The JSON text of the array with the one string [js], and [JSON.parse]
    on the two texts the samples send. *)
Definition quote : string := String (ascii_of_nat 34) EmptyString.
Definition js_stack : string := "[" +:+ quote +:+ "js" +:+ quote +:+ "]".

Definition parse (text : string) : option (list string) :=
  if decide (text = js_stack) then Some ["js"]
  else if decide (text = "[]") then Some []
  else None.
End Wire.

(** * Lemmas *)

(** ** Running a route *)

Ltac run :=
  unfold try_catch, res,
    newLikeNotification, removeLikeNotification,
    newCommentNotification, removeCommentNotification,
    notify, modify, throw,
    Post.findById, Post.save, Post.create, Post.remove,
    Post.countDocuments, Post.populate_user, Post.populate_comments,
    Post.populate_likes, User.findById, Follower.findOne,
    mbind, M_bind, mret, M_ret; simpl.

Ltac branches :=
  repeat first [case_match | case_decide | case_bool_decide];
  simplify_eq/=.

(** ** The primitives on small inputs *)

Example findIndex_first : JS.findIndex (λ n : Z, n = 2) [1; 2; 3; 2] = 1.
Proof. reflexivity. Qed.

Example findIndex_none : JS.findIndex (λ n : Z, n = 5) [1; 2; 3] = -1.
Proof. reflexivity. Qed.

(** An index of [-1] would take the last element away: the routes splice
    only after they have seen a match. *)
Example splice1_last : JS.splice1 (-1) [1; 2; 3] = [1; 2].
Proof. reflexivity. Qed.

Example splice1_past_end : JS.splice1 7 [1; 2; 3] = [1; 2; 3].
Proof. reflexivity. Qed.

Example parseInt10_samples :
  JS.parseInt10 "12" = Some 12 ∧ JS.parseInt10 "  -12px" = Some (-12)
  ∧ JS.parseInt10 "+7" = Some 7 ∧ JS.parseInt10 "abc" = None
  ∧ JS.parseInt10 "" = None ∧ JS.parseInt10 "-" = None.
Proof. by vm_compute. Qed.

Example parseInt_or_samples :
  JS.parseInt_or (Some "3") 1 = 3 ∧ JS.parseInt_or (Some "0") 12 = 12
  ∧ JS.parseInt_or (Some "x") 12 = 12 ∧ JS.parseInt_or None 1 = 1
  ∧ JS.parseInt_or (Some "-2") 1 = -2.
Proof. by vm_compute. Qed.

(** ** Arrays: scanning and splicing *)

Section Scan.
Context {A : Type} (P : A → Prop) `{!∀ x, Decision (P x)}.
Implicit Types l : list A.

Lemma filter_pos_iff l :
  (0 < length (filter P l))%nat ↔ Exists P l.
Proof.
  induction l as [|x l IH]; simpl.
  - split; [lia | by intros ?%Exists_nil].
  - rewrite filter_cons, Exists_cons. case_decide; simpl.
    + split; [auto | lia].
    + rewrite IH. tauto.
Qed.

Lemma list_find_is_Some l : Exists P l → is_Some (list_find P l).
Proof.
  intros (x & Hx & HP)%Exists_exists. by eapply list_find_elem_of.
Qed.

Lemma findIndex_range l :
  Exists P l → 0 ≤ JS.findIndex P l < Z.of_nat (length l).
Proof.
  intros [[i x] Hf]%list_find_is_Some. unfold JS.findIndex. rewrite Hf.
  apply list_find_Some in Hf as (Hi%lookup_lt_Some & _). lia.
Qed.

Lemma findIndex_absent l : ¬ Exists P l → JS.findIndex P l = -1.
Proof.
  intros Hn. unfold JS.findIndex.
  destruct (list_find P l) as [[i x]|] eqn:Hf; [|done].
  apply list_find_Some in Hf as (Hi & HP & _). destruct Hn.
  apply Exists_exists. exists x. split; [|done].
  by eapply list_elem_of_lookup_2.
Qed.

(** Splicing at a valid index removes exactly that element. *)
Lemma splice1_in_range l (i : nat) :
  JS.splice1 (Z.of_nat i) l = delete i l.
Proof.
  unfold JS.splice1. case_decide; [lia|].
  destruct (decide (i ≤ length l)%nat).
  - by rewrite Z.min_l, Nat2Z.id by lia.
  - rewrite Z.min_r, Nat2Z.id by lia.
    rewrite !delete_take_drop, !take_ge, !drop_ge by lia. done.
Qed.

(** The scan-and-splice of the routes removes the first match. *)
Lemma splice1_findIndex l :
  Exists P l → spliced_first P l (JS.splice1 (JS.findIndex P l) l).
Proof.
  intros [[i x] Hf]%list_find_is_Some. unfold JS.findIndex. rewrite Hf.
  rewrite splice1_in_range, delete_take_drop.
  apply list_find_Some in Hf as (Hi & HP & Hbefore).
  exists (take i l), x, (drop (S i) l). split_and!; [|done| |done].
  - by rewrite take_drop_middle.
  - apply Forall_lookup. intros j y Hj.
    pose proof (lookup_lt_Some _ _ _ Hj) as Hlt.
    rewrite length_take in Hlt. rewrite lookup_take_lt in Hj by lia.
    eapply Hbefore; [done | lia].
Qed.

(** A first-match splice is determined by the array. *)
Lemma spliced_first_unique l l1 l2 :
  spliced_first P l l1 → spliced_first P l l2 → l1 = l2.
Proof.
  intros (a1 & x & b1 & -> & Hx & Ha1 & ->) (a2 & y & b2 & E & Hy & Ha2 & ->).
  revert a2 E Ha2. induction a1 as [|z a1 IH]; intros [|z2 a2] E Ha2;
    simplify_eq/=; try done.
  - by apply Forall_cons in Ha2 as [? _].
  - by apply Forall_cons in Ha1 as [? _].
  - apply Forall_cons in Ha1 as [_ ?]. apply Forall_cons in Ha2 as [_ ?].
    f_equal. by apply IH.
Qed.

Lemma spliced_first_sublist l l' : spliced_first P l l' → l' `sublist_of` l.
Proof.
  intros (a & x & b & -> & _ & _ & ->).
  apply sublist_app; [done|]. by apply sublist_cons.
Qed.

Lemma spliced_first_Permutation l l' x :
  spliced_first P l l' → P x → (∀ y, P y → y = x) → x :: l' ≡ₚ l.
Proof.
  intros (a & y & b & -> & Hy & _ & ->) Hx Huniq.
  rewrite (Huniq y Hy). by rewrite Permutation_middle.
Qed.
End Scan.

Section RemoveFirst.
Context {A : Type} (P : A → Prop) `{!∀ x, Decision (P x)}.
Implicit Types l : list A.

Lemma remove_first_spliced l :
  Exists P l → spliced_first P l (remove_first P l).
Proof.
  induction l as [|x l IH]; [by intros ?%Exists_nil|].
  intros HE. simpl. case_decide as HP.
  - by exists [], x, l.
  - apply Exists_cons in HE as [?|HE]; [done|].
    destruct (IH HE) as (a & y & b & -> & Hy & Ha & ->).
    exists (x :: a), y, b. split_and!; try done. by constructor.
Qed.

Lemma splice1_findIndex_remove_first l :
  Exists P l → JS.splice1 (JS.findIndex P l) l = remove_first P l.
Proof.
  intros HE. eapply (spliced_first_unique P l).
  - by apply splice1_findIndex.
  - by apply remove_first_spliced.
Qed.

Lemma remove_first_absent l : ¬ Exists P l → remove_first P l = l.
Proof.
  induction l as [|x l IH]; [done|]. intros HE. simpl.
  case_decide; [destruct HE; by left|].
  f_equal. apply IH. contradict HE. by right.
Qed.
End RemoveFirst.

Lemma has_entry_Exists u (l : list Like) :
  has_entry u l ↔ Exists (λ e, like_user e = u) l.
Proof.
  unfold has_entry. rewrite list_elem_of_fmap, Exists_exists.
  split; intros (e & ? & ?); exists e; done.
Qed.

Lemma toggle_toggled u l : toggled u l (toggle u l).
Proof.
  unfold toggled, toggle. case_decide as H; [left|right]; split; try done.
  apply remove_first_spliced. by apply has_entry_Exists.
Qed.

(** What the two branches of the routes compute on the array. *)
Lemma scan_splice_toggle u (l : list Like) :
  (if bool_decide (0 < length (filter (λ e, like_user e = u) l))%nat
   then JS.splice1 (JS.findIndex (λ e, like_user e = u) l) l
   else JS.unshift {| like_user := u |} l) = toggle u l.
Proof.
  unfold toggle, JS.unshift. case_bool_decide as H.
  - apply filter_pos_iff in H. rewrite decide_True by by apply has_entry_Exists.
    by apply splice1_findIndex_remove_first.
  - rewrite decide_False; [done|]. rewrite has_entry_Exists.
    by rewrite <-filter_pos_iff.
Qed.

Lemma put_like_found w userId postId post :
  Posts w !! postId = Some post →
  put_like userId postId w =
    let post' := set_likes (toggle userId (likes post)) post in
    let w1 := set_Posts (<[postId := post']> (Posts w)) w in
    let n := if decide (has_entry userId (likes post))
             then RemoveLike (user post) userId postId
             else NewLike (user post) userId postId in
    (if decide (user post ≠ userId) then add_notified n w1 else w1,
     {| status := 200; json := JPost post' |}).
Proof.
  intros Hp. unfold put_like. run. rewrite Hp.
  rewrite <-scan_splice_toggle.
  case_bool_decide as H.
  - apply filter_pos_iff, has_entry_Exists in H. rewrite (decide_True _ _ H).
    by case_decide.
  - rewrite filter_pos_iff, <-has_entry_Exists in H.
    rewrite (decide_False _ _ H). by case_decide.
Qed.

Lemma put_save_found w userId postId post :
  Posts w !! postId = Some post →
  put_save userId postId w =
    let post' := set_saves (toggle userId (saves post)) post in
    (set_Posts (<[postId := post']> (Posts w)) w,
     {| status := 200; json := JPost post' |}).
Proof.
  intros Hp. unfold put_save. run. rewrite Hp.
  rewrite <-scan_splice_toggle. by case_bool_decide.
Qed.

Lemma get_post_missing w postId :
  Posts w !! postId = None → get_post postId w = (w, not_found).
Proof. intros Hp. unfold get_post. run. by rewrite Hp. Qed.

Lemma delete_post_missing w userId postId :
  Posts w !! postId = None → delete_post userId postId w = (w, not_found).
Proof. intros Hp. unfold delete_post. run. by rewrite Hp. Qed.

Lemma put_like_missing w userId postId :
  Posts w !! postId = None → put_like userId postId w = (w, not_found).
Proof. intros Hp. unfold put_like. run. by rewrite Hp. Qed.

Lemma put_save_missing w userId postId :
  Posts w !! postId = None → put_save userId postId w = (w, not_found).
Proof. intros Hp. unfold put_save. run. by rewrite Hp. Qed.

Lemma get_likes_missing w postId :
  Posts w !! postId = None → get_likes postId w = (w, not_found).
Proof. intros Hp. unfold get_likes. run. by rewrite Hp. Qed.

Lemma delete_comment_missing w userId postId commentId :
  Posts w !! postId = None →
  delete_comment userId postId commentId w = (w, not_found).
Proof. intros Hp. unfold delete_comment. run. by rewrite Hp. Qed.

Lemma post_comment_empty w userId postId uuid now :
  post_comment userId postId "" uuid now w =
    (w, {| status := 400;
           json := Msg "Comment must be atleast 1 character long" |}).
Proof. done. Qed.

Lemma text_length_lt_1 (text : string) :
  Z.of_nat (String.length text) < 1 ↔ text = "".
Proof. destruct text; simpl; split; intros; (done || lia). Qed.

Lemma post_comment_missing w userId postId text uuid now :
  text ≠ "" → Posts w !! postId = None →
  post_comment userId postId text uuid now w = (w, not_found).
Proof.
  intros Ht Hp. unfold post_comment. run.
  rewrite decide_False by by rewrite text_length_lt_1.
  by rewrite Hp.
Qed.

Lemma post_comment_found w userId postId text uuid now post :
  text ≠ "" → Posts w !! postId = Some post →
  post_comment userId postId text uuid now w =
    let comment := {| comment_id := uuid; comment_user := userId;
                      comment_text := text; comment_date := now |} in
    let post' := set_comments (comment :: comments post) post in
    let w1 := set_Posts (<[postId := post']> (Posts w)) w in
    (if decide (user post ≠ userId)
     then add_notified (NewComment (user post) userId postId uuid text) w1
     else w1,
     {| status := 201;
        json := JComments ((λ c, (c, Users w !! comment_user c))
                             <$> comments post') |}).
Proof.
  intros Ht Hp. unfold post_comment. run.
  rewrite decide_False by by rewrite text_length_lt_1.
  rewrite Hp. by case_decide.
Qed.

Lemma get_post_found w postId post :
  Posts w !! postId = Some post →
  get_post postId w =
    let post' := set_views (views post + 1) post in
    (set_Posts (<[postId := post']> (Posts w)) w,
     {| status := 200;
        json := JPostPopulated post' (Users w !! user post)
                  ((λ c, Users w !! comment_user c) <$> comments post) |}).
Proof.
  intros Hp. unfold get_post. run. rewrite Hp. simpl.
  by rewrite <-list_fmap_compose.
Qed.

Lemma owner_or_root_known author userId requester w :
  owner_or_root author userId (Some requester) w =
    (w, Ok (bool_decide (may_delete author userId requester))).
Proof.
  unfold owner_or_root, may_delete. case_decide; run.
  - by rewrite bool_decide_eq_true_2 by by left.
  - do 2 f_equal. apply bool_decide_ext. tauto.
Qed.

Lemma delete_post_found w userId postId post requester :
  Posts w !! postId = Some post → Users w !! userId = Some requester →
  delete_post userId postId w =
    if decide (may_delete (user post) userId requester)
    then (set_Posts (delete postId (Posts w)) w,
          {| status := 200; json := Msg "Post deleted" |})
    else (w, {| status := 401;
                json := Msg "You are not authorized to delete this post" |}).
Proof.
  intros Hp Hu. unfold delete_post. run. rewrite Hp, Hu.
  rewrite owner_or_root_known. case_bool_decide; case_decide; done.
Qed.

Lemma delete_comment_found w userId postId commentId post comment requester :
  Posts w !! postId = Some post →
  JS.find (λ c, comment_id c = commentId) (comments post) = Some comment →
  Users w !! userId = Some requester →
  delete_comment userId postId commentId w =
    if decide (may_delete (comment_user comment) userId requester)
    then
      let post' :=
        set_comments
          (remove_first (λ c, comment_id c = commentId) (comments post))
          post in
      let w1 := set_Posts (<[postId := post']> (Posts w)) w in
      (if decide (user post ≠ userId)
       then add_notified
              (RemoveComment (user post) userId postId (comment_id comment)) w1
       else w1,
       {| status := 200;
          json := JComments ((λ c, (c, Users w !! comment_user c))
                               <$> comments post') |})
    else (w, {| status := 401;
                json :=
                  Msg "You are not authorized to delete this comment" |}).
Proof.
  intros Hp Hc Hu. unfold delete_comment. run. rewrite Hp, Hc, Hu.
  rewrite owner_or_root_known.
  assert (Exists (λ c, comment_id c = commentId) (comments post)) as HE.
  { unfold JS.find in Hc.
    destruct (list_find _ _) as [[i c]|] eqn:Hf; simplify_eq/=.
    apply list_find_Some in Hf as (Hi & HP & _).
    apply Exists_exists. exists comment. split; [|done].
    by eapply list_elem_of_lookup_2. }
  rewrite splice1_findIndex_remove_first by done.
  case_bool_decide; repeat case_decide; done.
Qed.

(** A requester without a user document: the owner of the post (or the
    author of the comment) is served, since the role is not read; anyone else
    makes the route throw, which its handler turns into a 500 that leaves the
    posts as they were. *)
Lemma delete_post_no_user_doc w userId postId post :
  Posts w !! postId = Some post → Users w !! userId = None →
  (user post = userId →
   delete_post userId postId w =
     (set_Posts (delete postId (Posts w)) w,
      {| status := 200; json := Msg "Post deleted" |}))
  ∧ (user post ≠ userId →
     status (delete_post userId postId w).2 = 500
     ∧ Posts (delete_post userId postId w).1 = Posts w).
Proof.
  intros Hp Hu. unfold delete_post, owner_or_root. run. rewrite Hp, Hu.
  split; intros H; by branches.
Qed.

Lemma delete_comment_no_user_doc w userId postId commentId post comment :
  Posts w !! postId = Some post →
  JS.find (λ c, comment_id c = commentId) (comments post) = Some comment →
  Users w !! userId = None → comment_user comment ≠ userId →
  status (delete_comment userId postId commentId w).2 = 500
  ∧ Posts (delete_comment userId postId commentId w).1 = Posts w.
Proof.
  intros Hp Hc Hu Hne. unfold delete_comment, owner_or_root. run.
  rewrite Hp, Hc, Hu. by branches.
Qed.

(** ** Pagination *)

Global Instance newer_first_total : Total Post.newer_first.
Proof. intros a b. unfold Post.newer_first. lia. Qed.

Global Instance newer_first_trans : Transitive Post.newer_first.
Proof. intros a b c. unfold Post.newer_first. lia. Qed.

Lemma matching_all w : Post.matching (λ _, true) w = map_to_list (Posts w).
Proof.
  unfold Post.matching. induction (map_to_list (Posts w)) as [|d l IH]; [done|].
  rewrite filter_cons. rewrite decide_True by done. by rewrite IH.
Qed.

(** The query of the two listing routes, for a page and a limit of at least
    1. *)
Lemma exec_page w cond p l :
  1 ≤ p → 1 ≤ l →
  Post.exec (Post.sort_createdAt_desc (Post.limit l
      (Post.skip ((p - 1) * l) (Post.find cond)))) w =
    (w, Ok (page_slice p l
              (merge_sort Post.newer_first (Post.matching cond w)))).
Proof.
  intros Hp Hl. unfold Post.exec, page_slice. simpl.
  rewrite decide_False by nia. rewrite decide_False by lia.
  by rewrite Zabs2Nat.abs_nat_nonneg by lia.
Qed.

Lemma get_posts_page w q_page q_limit :
  let p := JS.parseInt_or q_page 1 in
  let l := JS.parseInt_or q_limit 12 in
  1 ≤ p → 1 ≤ l →
  get_posts q_page q_limit w =
    (w, {| status := 200;
           json := JPage
             (with_owner w <$> page_slice p l
                (merge_sort Post.newer_first (map_to_list (Posts w))))
             (next_page p l (Z.of_nat (size (Posts w)))) |}).
Proof.
  intros p l Hp Hl. unfold get_posts. fold p l. run.
  rewrite (exec_page w _ p l Hp Hl), matching_all, length_map_to_list.
  done.
Qed.

Lemma get_feed_page w userId q_page q_limit follower :
  let p := JS.parseInt_or q_page 1 in
  let l := JS.parseInt_or q_limit 12 in
  JS.find (λ f, follower_user f = userId) (Followers w) = Some follower →
  1 ≤ p → 1 ≤ l →
  let followed p :=
    bool_decide (user p ∈ following_user <$> following follower) in
  get_feed userId q_page q_limit w =
    (w, {| status := 200;
           json := JPage
             (with_owner w <$> page_slice p l
                (merge_sort Post.newer_first (Post.matching followed w)))
             (next_page p l
                (Z.of_nat (length (Post.matching followed w)))) |}).
Proof.
  intros p l Hf Hp Hl followed. unfold get_feed. fold p l. run.
  rewrite Hf. fold followed. by rewrite (exec_page w _ p l Hp Hl).
Qed.

(** Without a [Follower] document for the requester the feed throws before
    it queries anything. *)
Lemma get_feed_no_follower w userId q_page q_limit :
  JS.find (λ f, follower_user f = userId) (Followers w) = None →
  status (get_feed userId q_page q_limit w).2 = 500.
Proof. intros Hf. unfold get_feed. run. by rewrite Hf. Qed.

Lemma parseInt_or_absent d : JS.parseInt_or None d = d.
Proof. done. Qed.

Lemma parseInt_or_NaN s d :
  JS.parseInt10 s = None → JS.parseInt_or (Some s) d = d.
Proof. intros H. unfold JS.parseInt_or. simpl. by rewrite H. Qed.

(** ** The toggle on arrays with one entry per user *)

Lemma like_user_inj (e : Like) u : like_user e = u → e = {| like_user := u |}.
Proof. destruct e. simpl. by intros ->. Qed.

Lemma spliced_first_absent u (l l' : list Like) :
  unique_users l → spliced_first (λ e, like_user e = u) l l' →
  ¬ has_entry u l'.
Proof.
  unfold unique_users, has_entry.
  intros Hnd (a & x & b & -> & Hx & _ & ->).
  rewrite fmap_app, fmap_cons, Hx in Hnd. rewrite fmap_app.
  apply NoDup_app in Hnd as (_ & Ha & [Hb _]%NoDup_cons).
  intros [Hin|Hin]%elem_of_app; [|done].
  apply (Ha _ Hin). by left.
Qed.

Lemma toggle_unique u l : unique_users l → unique_users (toggle u l).
Proof.
  unfold toggle, unique_users. intros Hnd. case_decide as H.
  - apply (sublist_NoDup _ (like_user <$> l)); [done|]. apply fmap_sublist.
    eapply spliced_first_sublist, remove_first_spliced.
    by apply has_entry_Exists.
  - rewrite fmap_cons. simpl. by apply NoDup_cons.
Qed.

Lemma toggle_absent u l :
  ¬ has_entry u l → toggle u (toggle u l) = l.
Proof.
  intros H. unfold toggle at 2. rewrite decide_False by done.
  unfold toggle. rewrite decide_True; [|by left].
  simpl. by rewrite decide_True.
Qed.

Lemma toggle_front u l :
  unique_users ({| like_user := u |} :: l) →
  toggle u (toggle u ({| like_user := u |} :: l)) = {| like_user := u |} :: l.
Proof.
  intros [Hu _]%NoDup_cons. simpl in Hu. unfold toggle at 2.
  rewrite decide_True; [|by left]. simpl. rewrite decide_True by done.
  unfold toggle. by rewrite decide_False.
Qed.

Lemma toggle_twice_Permutation u l :
  unique_users l → toggle u (toggle u l) ≡ₚ l.
Proof.
  intros Hnd. destruct (decide (has_entry u l)) as [H|H].
  - pose proof (remove_first_spliced (λ e, like_user e = u) l
                  (proj1 (has_entry_Exists u l) H)) as Hs.
    unfold toggle at 2. rewrite decide_True by done.
    unfold toggle. rewrite decide_False by by eapply spliced_first_absent.
    eapply spliced_first_Permutation; [done|done|].
    intros y. apply like_user_inj.
  - by rewrite toggle_absent.
Qed.

(** After two toggles the user's entry is at the front and the other entries
    keep their order. *)
Lemma toggle_twice_moves_to_front u l1 l2 :
  unique_users (l1 ++ {| like_user := u |} :: l2) →
  toggle u (toggle u (l1 ++ {| like_user := u |} :: l2))
  = {| like_user := u |} :: l1 ++ l2.
Proof.
  intros Hnd.
  assert (has_entry u (l1 ++ {| like_user := u |} :: l2)) as Hin.
  { unfold has_entry. rewrite fmap_app, fmap_cons, elem_of_app. right.
    by left. }
  assert (Forall (λ e, ¬ like_user e = u) l1) as Hl1.
  { unfold unique_users in Hnd. rewrite fmap_app, fmap_cons in Hnd.
    apply NoDup_app in Hnd as (_ & Hdis & _). apply Forall_forall.
    intros e He Hu. apply (Hdis u).
    - apply list_elem_of_fmap. by exists e.
    - by left. }
  assert (remove_first (λ e, like_user e = u)
            (l1 ++ {| like_user := u |} :: l2) = l1 ++ l2) as Hrm.
  { eapply (spliced_first_unique (λ e, like_user e = u)).
    - apply remove_first_spliced. by apply has_entry_Exists.
    - by exists l1, {| like_user := u |}, l2. }
  unfold toggle at 2. rewrite decide_True by done. rewrite Hrm.
  unfold toggle. rewrite decide_False; [done|].
  eapply spliced_first_absent; [done|].
  by exists l1, {| like_user := u |}, l2.
Qed.

(** The posts after a toggle, whoever is notified. *)
Lemma Posts_put_like w userId postId post :
  Posts w !! postId = Some post →
  Posts (put_like userId postId w).1 =
    <[postId := set_likes (toggle userId (likes post)) post]> (Posts w).
Proof. intros Hp. rewrite (put_like_found _ _ _ _ Hp). simpl. by case_decide. Qed.

Lemma Posts_put_save w userId postId post :
  Posts w !! postId = Some post →
  Posts (put_save userId postId w).1 =
    <[postId := set_saves (toggle userId (saves post)) post]> (Posts w).
Proof. intros Hp. by rewrite (put_save_found _ _ _ _ Hp). Qed.

Lemma put_like_twice w userId postId post :
  Posts w !! postId = Some post →
  Posts (put_like userId postId (put_like userId postId w).1).1 !! postId =
    Some (set_likes (toggle userId (toggle userId (likes post))) post).
Proof.
  intros Hp.
  assert (Posts (put_like userId postId w).1 !! postId =
            Some (set_likes (toggle userId (likes post)) post)) as Hp1.
  { rewrite (Posts_put_like _ _ _ _ Hp). apply lookup_insert_eq. }
  rewrite (Posts_put_like _ _ _ _ Hp1). by rewrite lookup_insert_eq.
Qed.

Lemma put_save_twice w userId postId post :
  Posts w !! postId = Some post →
  Posts (put_save userId postId (put_save userId postId w).1).1 !! postId =
    Some (set_saves (toggle userId (toggle userId (saves post))) post).
Proof.
  intros Hp.
  assert (Posts (put_save userId postId w).1 !! postId =
            Some (set_saves (toggle userId (saves post)) post)) as Hp1.
  { rewrite (Posts_put_save _ _ _ _ Hp). apply lookup_insert_eq. }
  rewrite (Posts_put_save _ _ _ _ Hp1). by rewrite lookup_insert_eq.
Qed.

Lemma handle_posts_step JSON_parse r w :
  posts_step r (Posts w) (Posts (handle JSON_parse r w).1).
Proof.
  destruct r as [u b f i t|p l|u p l|u|i|u i|u i|u i|i|u i t c n|u i c]; simpl.
  - unfold post_posts. run. branches;
      first [apply step_none | by apply step_create].
  - unfold get_posts, Post.exec. run. branches; apply step_none.
  - unfold get_feed, Post.exec. run. branches; apply step_none.
  - unfold get_saves, Post.exec. run. branches; apply step_none.
  - unfold get_post. run. branches;
      first [apply step_none | by eapply step_update].
  - unfold delete_post, owner_or_root. run. branches;
      first [apply step_none | apply step_remove].
  - destruct (Posts w !! i) as [p|] eqn:Hp.
    + rewrite (Posts_put_like _ _ _ _ Hp). by eapply step_like.
    + rewrite put_like_missing by done. apply step_none.
  - destruct (Posts w !! i) as [p|] eqn:Hp.
    + rewrite (Posts_put_save _ _ _ _ Hp). by eapply step_save.
    + rewrite put_save_missing by done. apply step_none.
  - unfold get_likes. run. branches; apply step_none.
  - unfold post_comment. run. branches;
      first [apply step_none | by eapply step_update].
  - unfold delete_comment, owner_or_root. run. branches;
      first [apply step_none | by eapply step_update].
Qed.

Lemma posts_step_unique r m m' :
  posts_step r m m' → store_unique m → store_unique m'.
Proof.
  intros Hstep Hm.
  destruct Hstep as [|id p Hnone Hl Hs|id|id p p' Hp Hl Hs|u id p _ Hp|u id p _ Hp];
    [done|..]; intros j q.
  - rewrite lookup_insert. case_decide; [|by apply Hm].
    intros [= <-]. rewrite Hl, Hs. split; apply NoDup_nil_2.
  - rewrite lookup_delete. case_decide; [done|by apply Hm].
  - rewrite lookup_insert. case_decide; [|by apply Hm].
    intros [= <-]. rewrite Hl, Hs. by eapply Hm.
  - rewrite lookup_insert. case_decide; [|by apply Hm].
    intros [= <-]. destruct (Hm _ _ Hp). simpl. split; [|done].
    by apply toggle_unique.
  - rewrite lookup_insert. case_decide; [|by apply Hm].
    intros [= <-]. destruct (Hm _ _ Hp). simpl. split; [done|].
    by apply toggle_unique.
Qed.

(** The [likes] array of a post changes only under the like toggle on that
    post, the [saves] array only under the save toggle. *)
Lemma posts_step_mutators r m m' id p p' :
  posts_step r m m' → m !! id = Some p → m' !! id = Some p' →
  (likes p' ≠ likes p → ∃ u, r = PutLike u id)
  ∧ (saves p' ≠ saves p → ∃ u, r = PutSave u id).
Proof.
  intros Hstep Hp Hp'.
  destruct Hstep as [|j q Hnone Hl Hs|j|j q q' Hq Hl Hs|u j q -> Hq|u j q -> Hq].
  - by simplify_eq.
  - rewrite lookup_insert in Hp'. case_decide; by simplify_eq.
  - rewrite lookup_delete in Hp'. case_decide; by simplify_eq.
  - rewrite lookup_insert in Hp'. case_decide; simplify_eq; [|done].
    by rewrite Hl, Hs.
  - rewrite lookup_insert in Hp'. case_decide; simplify_eq/=; [|done].
    split; [by exists u|done].
  - rewrite lookup_insert in Hp'. case_decide; simplify_eq/=; [|done].
    split; [done|by exists u].
Qed.

Lemma sample_p1_unique :
  unique_users (likes Sample.p1) ∧ unique_users (saves Sample.p1).
Proof.
  assert (NoDup ["carol"; "bob"]) as H.
  { apply NoDup_cons. split; [|apply NoDup_singleton].
    intros Hin%list_elem_of_singleton. discriminate. }
  by split.
Qed.

(** * The properties of the routes *)

(** ** Deleting a comment *)

(** C1, as the specification states it, fails: on the sample store the post
    [p1] belongs to alice and its comment [c1] was written by bob.  Alice
    passes the check [post.user === req.userId] and is answered 401 with the
    comments untouched, while bob, who fails that check and is not root, is
    answered 200 and the comment is gone. *)
Lemma delete_comment_not_post_owner :
  Posts Sample.world !! "p1" = Some Sample.p1
  ∧ JS.find (λ c, comment_id c = "c1") (comments Sample.p1) = Some Sample.c1
  ∧ Users Sample.world !! "alice" = Some Sample.member
  ∧ Users Sample.world !! "bob" = Some Sample.member
  ∧ may_delete (user Sample.p1) "alice" Sample.member
  ∧ status (delete_comment "alice" "p1" "c1" Sample.world).2 = 401
  ∧ Posts (delete_comment "alice" "p1" "c1" Sample.world).1
    = Posts Sample.world
  ∧ ¬ may_delete (user Sample.p1) "bob" Sample.member
  ∧ status (delete_comment "bob" "p1" "c1" Sample.world).2 = 200
  ∧ comments <$> Posts (delete_comment "bob" "p1" "c1" Sample.world).1 !! "p1"
    = Some [].
Proof.
  split_and!; try by vm_compute.
  - by left.
  - unfold may_delete. simpl. intros [|]; discriminate.
Qed.

(** C1, amended: when the post, the comment and the requester's user
    document exist, DELETE /api/posts/comment/:postId/:commentId deletes the
    comment (the first one carrying that id) and responds 200 exactly when
    the comment's author equals [req.userId] or the requester's role is
    'root'; otherwise it responds 401 and the store, the comments array with
    it, is unchanged. *)
Theorem delete_comment_author_or_root
    w userId postId commentId post comment requester :
  Posts w !! postId = Some post →
  JS.find (λ c, comment_id c = commentId) (comments post) = Some comment →
  Users w !! userId = Some requester →
  let w' := (delete_comment userId postId commentId w).1 in
  let r := (delete_comment userId postId commentId w).2 in
  (status r = 200 ↔ may_delete (comment_user comment) userId requester)
  ∧ (may_delete (comment_user comment) userId requester →
     Posts w' =
       <[postId := set_comments
           (remove_first (λ c, comment_id c = commentId) (comments post))
           post]> (Posts w))
  ∧ (¬ may_delete (comment_user comment) userId requester →
     r = {| status := 401;
            json := Msg "You are not authorized to delete this comment" |}
     ∧ w' = w).
Proof.
  intros Hp Hc Hu. simpl.
  rewrite (delete_comment_found _ _ _ _ _ _ _ Hp Hc Hu).
  case_decide as Hm; simpl.
  - split_and!; [done| |done]. intros _. by case_decide.
  - split_and!; [|done|done]. split; [discriminate|done].
Qed.

Lemma delete_comment_author_or_root_witness :
  (status (delete_comment "dave" "p1" "c1" Sample.world).2 = 200
   ↔ may_delete (comment_user Sample.c1) "dave" Sample.admin)
  ∧ (may_delete (comment_user Sample.c1) "dave" Sample.admin →
     Posts (delete_comment "dave" "p1" "c1" Sample.world).1 =
       <[ "p1" := set_comments
           (remove_first (λ c, comment_id c = "c1") (comments Sample.p1))
           Sample.p1]> (Posts Sample.world))
  ∧ (¬ may_delete (comment_user Sample.c1) "dave" Sample.admin →
     (delete_comment "dave" "p1" "c1" Sample.world).2 =
       {| status := 401;
          json := Msg "You are not authorized to delete this comment" |}
     ∧ (delete_comment "dave" "p1" "c1" Sample.world).1 = Sample.world).
Proof.
  apply (delete_comment_author_or_root Sample.world "dave" "p1" "c1"
           Sample.p1 Sample.c1 Sample.admin); reflexivity.
Defined.

(** ** Toggling a like or a save *)

(** C2: for every existing post and every requester, PUT
    /api/posts/like/:postId scans the likes array: if the requester has an
    entry the first matching one is spliced out, otherwise a new entry is
    put at the front; the updated post is stored and sent back with status
    200.  PUT /api/posts/save/:postId does the same on the saves array. *)
Theorem toggle_like_and_save w userId postId post :
  Posts w !! postId = Some post →
  (∃ l', toggled userId (likes post) l'
         ∧ (put_like userId postId w).2 =
             {| status := 200; json := JPost (set_likes l' post) |}
         ∧ Posts (put_like userId postId w).1 =
             <[postId := set_likes l' post]> (Posts w))
  ∧ (∃ l', toggled userId (saves post) l'
           ∧ (put_save userId postId w).2 =
               {| status := 200; json := JPost (set_saves l' post) |}
           ∧ Posts (put_save userId postId w).1 =
               <[postId := set_saves l' post]> (Posts w)).
Proof.
  intros Hp. split.
  - exists (toggle userId (likes post)). split; [apply toggle_toggled|].
    rewrite (Posts_put_like _ _ _ _ Hp), (put_like_found _ _ _ _ Hp). done.
  - exists (toggle userId (saves post)). split; [apply toggle_toggled|].
    by rewrite (put_save_found _ _ _ _ Hp).
Qed.

Lemma toggle_like_and_save_witness :
  (∃ l', toggled "bob" (likes Sample.p1) l'
         ∧ (put_like "bob" "p1" Sample.world).2 =
             {| status := 200; json := JPost (set_likes l' Sample.p1) |}
         ∧ Posts (put_like "bob" "p1" Sample.world).1 =
             <["p1" := set_likes l' Sample.p1]> (Posts Sample.world))
  ∧ (∃ l', toggled "bob" (saves Sample.p1) l'
           ∧ (put_save "bob" "p1" Sample.world).2 =
               {| status := 200; json := JPost (set_saves l' Sample.p1) |}
           ∧ Posts (put_save "bob" "p1" Sample.world).1 =
               <["p1" := set_saves l' Sample.p1]> (Posts Sample.world)).
Proof.
  apply (toggle_like_and_save Sample.world "bob" "p1" Sample.p1). reflexivity.
Defined.

(** C3, as the specification states it, fails: the likes of the sample post
    [p1] are [carol; bob], one entry per user; after bob toggles twice they
    are [bob; carol], and so are the saves after two save toggles. *)
Lemma toggle_twice_reorders :
  unique_users (likes Sample.p1)
  ∧ unique_users (saves Sample.p1)
  ∧ likes <$> Posts (put_like "bob" "p1"
                       (put_like "bob" "p1" Sample.world).1).1 !! "p1"
    = Some [Sample.entry "bob"; Sample.entry "carol"]
  ∧ saves <$> Posts (put_save "bob" "p1"
                       (put_save "bob" "p1" Sample.world).1).1 !! "p1"
    = Some [Sample.entry "bob"; Sample.entry "carol"]
  ∧ [Sample.entry "bob"; Sample.entry "carol"] ≠ likes Sample.p1
  ∧ [Sample.entry "bob"; Sample.entry "carol"] ≠ saves Sample.p1.
Proof.
  split_and!; try by vm_compute.
  - apply sample_p1_unique.
  - apply sample_p1_unique.
Qed.

(** C3, amended: for every post whose likes array holds at most one entry
    per user id, two like toggles by the same user leave a likes array with
    the same entries as the original, in the original order when the user had
    no entry or had the first one; otherwise the user's entry has moved to
    the front and the other entries keep their order.  The same holds for
    two save toggles and the saves array. *)
Theorem toggle_twice w userId postId post :
  Posts w !! postId = Some post →
  (unique_users (likes post) →
   ∃ post2,
     Posts (put_like userId postId (put_like userId postId w).1).1 !! postId
       = Some post2
     ∧ likes post2 ≡ₚ likes post
     ∧ (¬ has_entry userId (likes post)
        ∨ head (likes post) = Some {| like_user := userId |} →
        likes post2 = likes post)
     ∧ (∀ before after,
          likes post = before ++ {| like_user := userId |} :: after →
          likes post2 = {| like_user := userId |} :: before ++ after))
  ∧ (unique_users (saves post) →
     ∃ post2,
       Posts (put_save userId postId (put_save userId postId w).1).1 !! postId
         = Some post2
       ∧ saves post2 ≡ₚ saves post
       ∧ (¬ has_entry userId (saves post)
          ∨ head (saves post) = Some {| like_user := userId |} →
          saves post2 = saves post)
       ∧ (∀ before after,
            saves post = before ++ {| like_user := userId |} :: after →
            saves post2 = {| like_user := userId |} :: before ++ after)).
Proof.
  intros Hp. split; intros Hnd.
  - eexists. split; [by apply put_like_twice|]. simpl.
    split; [by apply toggle_twice_Permutation|]. split.
    + intros [H|H]; [by apply toggle_absent|].
      destruct (likes post) as [|e l]; simplify_eq/=. by apply toggle_front.
    + intros before after Hl. rewrite Hl in Hnd |- *.
      by apply toggle_twice_moves_to_front.
  - eexists. split; [by apply put_save_twice|]. simpl.
    split; [by apply toggle_twice_Permutation|]. split.
    + intros [H|H]; [by apply toggle_absent|].
      destruct (saves post) as [|e l]; simplify_eq/=. by apply toggle_front.
    + intros before after Hl. rewrite Hl in Hnd |- *.
      by apply toggle_twice_moves_to_front.
Qed.

Lemma toggle_twice_witness :
  (∃ post2,
     Posts (put_like "carol" "p1" (put_like "carol" "p1" Sample.world).1).1
       !! "p1" = Some post2
     ∧ likes post2 ≡ₚ likes Sample.p1 ∧ likes post2 = likes Sample.p1)
  ∧ (∃ post2,
       Posts (put_save "dave" "p1" (put_save "dave" "p1" Sample.world).1).1
         !! "p1" = Some post2
       ∧ saves post2 ≡ₚ saves Sample.p1 ∧ saves post2 = saves Sample.p1)
  ∧ (∃ post2,
       Posts (put_like "bob" "p1" (put_like "bob" "p1" Sample.world).1).1
         !! "p1" = Some post2
       ∧ likes post2 = [Sample.entry "bob"; Sample.entry "carol"]).
Proof.
  split_and!.
  - destruct (toggle_twice Sample.world "carol" "p1" Sample.p1 eq_refl)
      as [Hl _].
    destruct (Hl (proj1 sample_p1_unique)) as (post2 & H1 & H2 & H3 & _).
    exists post2. split_and!; [done..|]. apply H3. by right.
  - destruct (toggle_twice Sample.world "dave" "p1" Sample.p1 eq_refl)
      as [_ Hs].
    destruct (Hs (proj2 sample_p1_unique)) as (post2 & H1 & H2 & H3 & _).
    exists post2. split_and!; [done..|]. apply H3. left.
    unfold has_entry. simpl. intros Hin.
    repeat (apply elem_of_cons in Hin as [?|Hin]; [discriminate|]).
    by apply elem_of_nil in Hin.
  - destruct (toggle_twice Sample.world "bob" "p1" Sample.p1 eq_refl)
      as [Hl _].
    destruct (Hl (proj1 sample_p1_unique)) as (post2 & H1 & _ & _ & H4).
    exists post2. split; [done|].
    apply (H4 [Sample.entry "carol"] []). reflexivity.
Defined.

(** ** One entry per user *)

(** C4: uniqueness by user id is an invariant of the likes and saves arrays.
    For every post with at most one entry per user id in the array, the like
    toggle and the save toggle store a post with at most one entry per user
    id; no other request changes the likes or the saves of a stored post, so
    every request keeps a store of such posts one. *)
Theorem unique_users_invariant JSON_parse w userId postId post :
  Posts w !! postId = Some post →
  (unique_users (likes post) →
   ∃ post', Posts (put_like userId postId w).1 !! postId = Some post'
            ∧ unique_users (likes post') ∧ saves post' = saves post)
  ∧ (unique_users (saves post) →
     ∃ post', Posts (put_save userId postId w).1 !! postId = Some post'
              ∧ unique_users (saves post') ∧ likes post' = likes post)
  ∧ (∀ r post',
       Posts (handle JSON_parse r w).1 !! postId = Some post' →
       (likes post' ≠ likes post → ∃ u, r = PutLike u postId)
       ∧ (saves post' ≠ saves post → ∃ u, r = PutSave u postId))
  ∧ (∀ r, store_unique (Posts w) →
          store_unique (Posts (handle JSON_parse r w).1)).
Proof.
  intros Hp. split_and!.
  - intros Hnd. eexists. rewrite (Posts_put_like _ _ _ _ Hp).
    split; [apply lookup_insert_eq|]. simpl.
    split; [by apply toggle_unique|done].
  - intros Hnd. eexists. rewrite (Posts_put_save _ _ _ _ Hp).
    split; [apply lookup_insert_eq|]. simpl.
    split; [by apply toggle_unique|done].
  - intros r post' Hp'.
    eapply posts_step_mutators; [apply handle_posts_step|done..].
  - intros r. apply posts_step_unique with r, handle_posts_step.
Qed.

Lemma unique_users_invariant_witness :
  (∃ post', Posts (put_like "dave" "p1" Sample.world).1 !! "p1" = Some post'
            ∧ unique_users (likes post') ∧ saves post' = saves Sample.p1)
  ∧ (∃ post', Posts (put_save "dave" "p1" Sample.world).1 !! "p1" = Some post'
              ∧ unique_users (saves post') ∧ likes post' = likes Sample.p1).
Proof.
  destruct (unique_users_invariant (λ _, Some []) Sample.world "dave" "p1"
              Sample.p1 eq_refl) as (Hl & Hs & _).
  split; [apply Hl|apply Hs]; apply sample_p1_unique.
Defined.

(** ** Pagination *)

(** C5: for every page [p >= 1] and limit [l >= 1] read off the query (1 and
    12 when the parameter is absent or does not parse), GET /api/posts skips
    [(p - 1) * l] documents of the listing in descending [createdAt] order
    and returns at most [l] of them, with [next = p + 1] when [p * l] is
    strictly below the number of documents and [null] otherwise; GET
    /api/posts/feed does the same arithmetic over the posts of the users the
    requester follows. *)
Theorem offset_pagination w q_page q_limit p l :
  JS.parseInt_or q_page 1 = p → JS.parseInt_or q_limit 12 = l →
  1 ≤ p → 1 ≤ l →
  let newest_first := merge_sort Post.newer_first in
  get_posts q_page q_limit w =
    (w, {| status := 200;
           json := JPage
             (with_owner w <$> take (Z.to_nat l)
                (drop (Z.to_nat ((p - 1) * l))
                   (newest_first (map_to_list (Posts w)))))
             (if decide (p * l < Z.of_nat (size (Posts w)))
              then Some (p + 1) else None) |})
  ∧ (∀ docs, Sorted Post.newer_first (newest_first docs)
             ∧ newest_first docs ≡ₚ docs)
  ∧ (∀ userId follower,
       JS.find (λ f, follower_user f = userId) (Followers w) = Some follower →
       let followed p :=
         bool_decide (user p ∈ following_user <$> following follower) in
       get_feed userId q_page q_limit w =
         (w, {| status := 200;
                json := JPage
                  (with_owner w <$> take (Z.to_nat l)
                     (drop (Z.to_nat ((p - 1) * l))
                        (newest_first (Post.matching followed w))))
                  (if decide
                        (p * l < Z.of_nat (length (Post.matching followed w)))
                   then Some (p + 1) else None) |}))
  ∧ JS.parseInt_or None 1 = 1 ∧ JS.parseInt_or None 12 = 12
  ∧ (∀ s d, JS.parseInt10 s = None → JS.parseInt_or (Some s) d = d).
Proof.
  intros <- <- Hp Hl newest_first. split_and!.
  - by apply get_posts_page.
  - intros docs. split.
    + apply (Sorted_merge_sort Post.newer_first).
    + apply merge_sort_Permutation.
  - intros userId follower Hf followed. by apply get_feed_page.
  - done.
  - done.
  - apply parseInt_or_NaN.
Qed.

Lemma offset_pagination_witness :
  (get_posts (Some "2") (Some "1") Sample.world).2 =
    {| status := 200;
       json := JPage [("p2", Sample.p2, Some Sample.member)] (Some 3) |}
  ∧ (get_feed "alice" (Some "2") (Some "1") Sample.world).2 =
      {| status := 200;
         json := JPage [("p2", Sample.p2, Some Sample.member)] None |}.
Proof.
  destruct (offset_pagination Sample.world (Some "2") (Some "1") 2 1
              eq_refl eq_refl) as (Hall & _ & Hfeed & _); [lia|lia|].
  split.
  - rewrite Hall. by vm_compute.
  - rewrite (Hfeed "alice" _ eq_refl). by vm_compute.
Defined.

(** ** Posts that do not exist *)

(** C6, as the specification states it, fails for the route that adds a
    comment: its length check comes before the lookup, so an empty text on a
    post that does not exist is answered 400. *)
Lemma empty_comment_on_missing_post :
  is_ObjectId Wire.absent_id = true
  ∧ Posts Sample.world !! Wire.absent_id = None
  ∧ (post_comment "alice" Wire.absent_id "" "c9" 99 Sample.world).2 =
      {| status := 400;
         json := Msg "Comment must be atleast 1 character long" |}
  ∧ (post_comment "alice" Wire.absent_id "" "c9" 99 Sample.world).2
    ≠ not_found.
Proof. split_and!; by vm_compute. Qed.

(** C6, amended: for every route with a [:postId] parameter (get by id,
    delete, like toggle, save toggle, get likes, add comment with a text of
    at least one character, delete comment), if the id has the form of an
    ObjectId and no post with that id exists, the route responds 404 with
    the message 'Post not found' and nothing in the store is created,
    modified or removed. *)
Theorem missing_post_404 w postId :
  is_ObjectId postId = true →
  Posts w !! postId = None →
  get_post postId w = (w, not_found)
  ∧ (∀ userId, delete_post userId postId w = (w, not_found))
  ∧ (∀ userId, put_like userId postId w = (w, not_found))
  ∧ (∀ userId, put_save userId postId w = (w, not_found))
  ∧ get_likes postId w = (w, not_found)
  ∧ (∀ userId text uuid now,
       text ≠ "" →
       post_comment userId postId text uuid now w = (w, not_found))
  ∧ (∀ userId commentId,
       delete_comment userId postId commentId w = (w, not_found)).
Proof.
  intros _ Hp. split_and!; intros.
  - by apply get_post_missing.
  - by apply delete_post_missing.
  - by apply put_like_missing.
  - by apply put_save_missing.
  - by apply get_likes_missing.
  - by apply post_comment_missing.
  - by apply delete_comment_missing.
Qed.

Lemma missing_post_404_witness :
  get_post Wire.absent_id Sample.world = (Sample.world, not_found)
  ∧ delete_post "alice" Wire.absent_id Sample.world
    = (Sample.world, not_found)
  ∧ put_like "alice" Wire.absent_id Sample.world = (Sample.world, not_found)
  ∧ put_save "alice" Wire.absent_id Sample.world = (Sample.world, not_found)
  ∧ get_likes Wire.absent_id Sample.world = (Sample.world, not_found)
  ∧ post_comment "alice" Wire.absent_id "hi" "c9" 99 Sample.world
    = (Sample.world, not_found)
  ∧ delete_comment "alice" Wire.absent_id "c1" Sample.world
    = (Sample.world, not_found).
Proof.
  destruct (missing_post_404 Sample.world Wire.absent_id eq_refl eq_refl)
    as (H1 & H2 & H3 & H4 & H5 & H6 & H7).
  split_and!; [done|apply H2|apply H3|apply H4|done| |apply H7].
  apply H6. discriminate.
Defined.

(** ** Validation *)

(** C7: POST /api/posts with fewer than one uploaded file responds 400
    ('Atleast one image is required') and creates no post; POST
    /api/posts/comment/:postId with a text of length less than 1 responds 400
    ('Comment must be atleast 1 character long') and adds no comment: in both
    cases the store is left as it was. *)
Theorem validation_400 JSON_parse w userId body files newId now
    postId text uuid :
  (length files < 1)%nat → (String.length text < 1)%nat →
  post_posts JSON_parse userId body files newId now w =
    (w, {| status := 400; json := Msg "Atleast one image is required" |})
  ∧ post_comment userId postId text uuid now w =
      (w, {| status := 400;
             json := Msg "Comment must be atleast 1 character long" |}).
Proof.
  intros Hf Ht. split.
  - unfold post_posts. by rewrite decide_True by lia.
  - unfold post_comment. run. by rewrite decide_True by lia.
Qed.

Lemma validation_400_witness :
  post_posts (λ _, Some []) "alice"
    {| body_title := "t"; body_description := "d"; body_liveDemo := "";
       body_sourceCode := None; body_techStack := "[]" |} [] "p9" 99
    Sample.world =
    (Sample.world,
     {| status := 400; json := Msg "Atleast one image is required" |})
  ∧ post_comment "alice" "p1" "" "c9" 99 Sample.world =
      (Sample.world,
       {| status := 400;
          json := Msg "Comment must be atleast 1 character long" |}).
Proof.
  apply (validation_400 (λ _, Some []) Sample.world "alice" _ [] "p9" 99
           "p1" "" "c9"); simpl; lia.
Defined.

(** ** Deleting a post *)

(** C8, the 401 for any other requester, fails where the requester has
    passed [auth] but has no user document and does not own the post: eve on
    alice's post [p1].  [User.findById] gives [null], reading [role] off it
    throws inside the [try], and the route logs the error and answers 500
    'Server error'; the post stays stored. *)
Lemma delete_post_without_user_doc_is_500 :
  Posts Sample.world !! "p1" = Some Sample.p1
  ∧ Users Sample.world !! "eve" = None
  ∧ user Sample.p1 ≠ "eve"
  ∧ delete_post "eve" "p1" Sample.world =
      (add_console (TypeError "Cannot read property 'role' of null")
         Sample.world,
       {| status := 500; json := Msg "Server error" |})
  ∧ status (delete_post "eve" "p1" Sample.world).2 ≠ 401
  ∧ Posts (delete_post "eve" "p1" Sample.world).1 !! "p1" = Some Sample.p1.
Proof. split_and!; by vm_compute. Qed.

(** For a requester who has a user document the route does what C8 says:
    for every existing post, DELETE /api/posts/:postId removes the post and
    responds 200 exactly when the requester owns the post ([post.user]
    equals [req.userId]) or has role 'root'; any other such requester is
    answered 401 and the store keeps the post unchanged. *)
Theorem delete_post_owner_or_root w userId postId post requester :
  Posts w !! postId = Some post → Users w !! userId = Some requester →
  let w' := (delete_post userId postId w).1 in
  let r := (delete_post userId postId w).2 in
  (status r = 200 ↔ may_delete (user post) userId requester)
  ∧ (may_delete (user post) userId requester →
     Posts w' = delete postId (Posts w) ∧ Posts w' !! postId = None)
  ∧ (¬ may_delete (user post) userId requester →
     r = {| status := 401;
            json := Msg "You are not authorized to delete this post" |}
     ∧ w' = w ∧ Posts w' !! postId = Some post).
Proof.
  intros Hp Hu. simpl. rewrite (delete_post_found _ _ _ _ _ Hp Hu).
  case_decide as Hm; simpl.
  - split_and!; [done| |done]. intros _. split; [done|].
    apply lookup_delete_eq.
  - split_and!; [|done|done]. split; [discriminate|done].
Qed.

Lemma delete_post_owner_or_root_witness :
  (status (delete_post "bob" "p1" Sample.world).2 = 200
   ↔ may_delete (user Sample.p1) "bob" Sample.member)
  ∧ (may_delete (user Sample.p1) "bob" Sample.member →
     Posts (delete_post "bob" "p1" Sample.world).1
       = delete "p1" (Posts Sample.world)
     ∧ Posts (delete_post "bob" "p1" Sample.world).1 !! "p1" = None)
  ∧ (¬ may_delete (user Sample.p1) "bob" Sample.member →
     (delete_post "bob" "p1" Sample.world).2 =
       {| status := 401;
          json := Msg "You are not authorized to delete this post" |}
     ∧ (delete_post "bob" "p1" Sample.world).1 = Sample.world
     ∧ Posts (delete_post "bob" "p1" Sample.world).1 !! "p1"
       = Some Sample.p1).
Proof.
  apply (delete_post_owner_or_root Sample.world "bob" "p1" Sample.p1
           Sample.member); reflexivity.
Defined.

(** ** Reading a post *)

(** C9: for every existing post, GET /api/posts/:postId responds 200 and
    stores the post with [views] one higher and every other field (title,
    description, images, likes, saves, comments, and the rest) as it was; no
    other post is touched. *)
Theorem get_post_counts_view w postId post :
  Posts w !! postId = Some post →
  let w' := (get_post postId w).1 in
  status (get_post postId w).2 = 200
  ∧ ∃ post',
      Posts w' = <[postId := post']> (Posts w)
      ∧ views post' = views post + 1
      ∧ title post' = title post ∧ description post' = description post
      ∧ images post' = images post ∧ likes post' = likes post
      ∧ saves post' = saves post ∧ comments post' = comments post
      ∧ user post' = user post ∧ liveDemo post' = liveDemo post
      ∧ techStack post' = techStack post
      ∧ sourceCode post' = sourceCode post
      ∧ createdAt post' = createdAt post.
Proof.
  intros Hp. simpl. rewrite (get_post_found _ _ _ Hp). simpl.
  split; [done|]. eexists. split; [done|]. by simpl.
Qed.

Lemma get_post_counts_view_witness :
  status (get_post "p1" Sample.world).2 = 200
  ∧ ∃ post',
      Posts (get_post "p1" Sample.world).1
        = <["p1" := post']> (Posts Sample.world)
      ∧ views post' = views Sample.p1 + 1
      ∧ title post' = title Sample.p1
      ∧ description post' = description Sample.p1
      ∧ images post' = images Sample.p1 ∧ likes post' = likes Sample.p1
      ∧ saves post' = saves Sample.p1 ∧ comments post' = comments Sample.p1
      ∧ user post' = user Sample.p1 ∧ liveDemo post' = liveDemo Sample.p1
      ∧ techStack post' = techStack Sample.p1
      ∧ sourceCode post' = sourceCode Sample.p1
      ∧ createdAt post' = createdAt Sample.p1.
Proof.
  apply (get_post_counts_view Sample.world "p1" Sample.p1). reflexivity.
Defined.

(** ** Notifications *)

(** C10: a like, an unlike, an added comment and a deleted comment call
    their notification helper (once, with the post's owner as the user to
    notify) if and only if the post's owner differs from the acting user;
    acting on one's own post calls none, and a request to delete a comment
    that is not carried out calls none. *)
Theorem notify_unless_own_post w userId postId post :
  Posts w !! postId = Some post →
  let to_owner (n : Notification) :=
    if decide (user post ≠ userId) then [n] else [] in
  (has_entry userId (likes post) →
   notifies (put_like userId postId) w
     (to_owner (RemoveLike (user post) userId postId)))
  ∧ (¬ has_entry userId (likes post) →
     notifies (put_like userId postId) w
       (to_owner (NewLike (user post) userId postId)))
  ∧ (∀ text uuid now,
       text ≠ "" →
       notifies (post_comment userId postId text uuid now) w
         (to_owner (NewComment (user post) userId postId uuid text)))
  ∧ (∀ commentId,
       status (delete_comment userId postId commentId w).2 = 200 →
       notifies (delete_comment userId postId commentId) w
         (to_owner (RemoveComment (user post) userId postId commentId)))
  ∧ (∀ commentId,
       status (delete_comment userId postId commentId w).2 ≠ 200 →
       notifies (delete_comment userId postId commentId) w []).
Proof.
  intros Hp to_owner. unfold notifies, to_owner. split_and!.
  - intros H. rewrite (put_like_found _ _ _ _ Hp). simpl.
    rewrite (decide_True _ _ H). case_decide; simpl; [done|].
    by rewrite app_nil_r.
  - intros H. rewrite (put_like_found _ _ _ _ Hp). simpl.
    rewrite (decide_False _ _ H). case_decide; simpl; [done|].
    by rewrite app_nil_r.
  - intros text uuid now Ht.
    rewrite (post_comment_found _ _ _ _ _ _ _ Ht Hp). simpl.
    case_decide; simpl; [done|]. by rewrite app_nil_r.
  - intros commentId. unfold delete_comment, owner_or_root, JS.find. run.
    rewrite Hp.
    destruct (list_find _ (comments post)) as [[i c]|] eqn:Hf; simpl;
      [|discriminate].
    apply list_find_Some in Hf as (_ & <- & _).
    branches; try discriminate; intros _; simpl;
      by rewrite ?app_nil_r.
  - intros commentId. unfold delete_comment, owner_or_root, JS.find. run.
    rewrite Hp. branches; try done; intros _; simpl; by rewrite ?app_nil_r.
Qed.

Lemma notify_unless_own_post_witness :
  notifies (put_like "bob" "p1") Sample.world [RemoveLike "alice" "bob" "p1"]
  ∧ notifies (post_comment "bob" "p1" "hi" "c9" 99) Sample.world
      [NewComment "alice" "bob" "p1" "c9" "hi"]
  ∧ notifies (delete_comment "bob" "p1" "c1") Sample.world
      [RemoveComment "alice" "bob" "p1" "c1"]
  ∧ notifies (delete_comment "bob" "p1" "c7") Sample.world [].
Proof.
  destruct (notify_unless_own_post Sample.world "bob" "p1" Sample.p1 eq_refl)
    as (Hunlike & _ & Hadd & Hdel & Hnot).
  split_and!.
  - apply Hunlike. unfold has_entry. simpl. apply elem_of_cons. right.
    apply elem_of_cons. by left.
  - apply (Hadd "hi" "c9" 99). discriminate.
  - apply (Hdel "c1"). reflexivity.
  - apply (Hnot "c7"). discriminate.
Defined.

(** On one's own post nothing is notified: alice liking, commenting on and
    deleting a comment of her post [p1]. *)
Lemma own_post_is_silent :
  notifies (put_like "alice" "p1") Sample.world []
  ∧ notifies (post_comment "alice" "p1" "hi" "c9" 99) Sample.world []
  ∧ notifies (delete_comment "dave" "p1" "c1") Sample.world
      [RemoveComment "alice" "dave" "p1" "c1"].
Proof. split_and!; by vm_compute. Qed.

(** * Further properties of the routes *)

(** ** Creating a post *)

(** The object the route builds from the request and hands to the store. *)
Lemma post_posts_created JSON_parse w userId body files newId now stack :
  files ≠ [] → JSON_parse (body_techStack body) = Some stack →
  Posts w !! newId = None →
  post_posts JSON_parse userId body files newId now w =
    let postObj :=
      {| user := userId; title := body_title body;
         description := body_description body;
         images := path <$> files; liveDemo := body_liveDemo body;
         techStack := stack;
         sourceCode := match body_sourceCode body with
                       | Some s => if decide (s = "") then None else Some s
                       | None => None
                       end;
         likes := []; saves := []; comments := []; views := 0;
         createdAt := now |} in
    (set_Posts (<[newId := postObj]> (Posts w)) w,
     {| status := 201; json := JPost postObj |}).
Proof.
  intros Hf Hj Hfresh. unfold post_posts.
  rewrite decide_False by (destruct files; simpl; [done|lia]).
  run. rewrite Hj. simpl. by rewrite Hfresh.
Qed.

(** X1: POST /api/posts with at least one file, a [techStack] that
    [JSON.parse] reads as an array of strings and a fresh id stores one new
    post and answers 201 with it.  The post belongs to the requester, its
    images are the paths of the files in order, its text fields are those of
    the body, its tech stack is the array read, and [sourceCode] is set only
    when the body has a non-empty one; the posts already stored are
    untouched. *)
Theorem create_post_stores_own_post
    JSON_parse w userId body files newId now stack :
  files ≠ [] → JSON_parse (body_techStack body) = Some stack →
  Posts w !! newId = None →
  ∃ post,
    (post_posts JSON_parse userId body files newId now w).2 =
      {| status := 201; json := JPost post |}
    ∧ Posts (post_posts JSON_parse userId body files newId now w).1 =
        <[newId := post]> (Posts w)
    ∧ (∀ other, other ≠ newId →
         Posts (post_posts JSON_parse userId body files newId now w).1
           !! other = Posts w !! other)
    ∧ user post = userId ∧ images post = path <$> files
    ∧ title post = body_title body
    ∧ description post = body_description body
    ∧ liveDemo post = body_liveDemo body ∧ techStack post = stack
    ∧ (∀ s, sourceCode post = Some s ↔
            body_sourceCode body = Some s ∧ s ≠ "").
Proof.
  intros Hf Hj Hfresh.
  rewrite (post_posts_created _ _ _ _ _ _ _ _ Hf Hj Hfresh). simpl.
  eexists. split_and!; try done.
  - intros other Hne. by rewrite lookup_insert_ne.
  - intros s. simpl.
    destruct (body_sourceCode body) as [s'|]; [|split; [done|by intros [? _]]].
    case_decide as E.
    + split; [done|]. intros [[= <-] ?]. done.
    + split; [by intros [= <-]|]. by intros [[= <-] _].
Qed.

Lemma create_post_stores_own_post_witness :
  ∃ post,
    (post_posts Wire.parse "bob"
       {| body_title := "t"; body_description := "d"; body_liveDemo := "";
          body_sourceCode := Some ""; body_techStack := Wire.js_stack |}
       [ {| path := "a.png" |}; {| path := "b.png" |} ] Wire.absent_id 99
       Sample.world).2 = {| status := 201; json := JPost post |}
    ∧ user post = "bob" ∧ images post = ["a.png"; "b.png"]
    ∧ techStack post = ["js"] ∧ sourceCode post = None.
Proof.
  destruct (create_post_stores_own_post Wire.parse Sample.world "bob"
              {| body_title := "t"; body_description := "d";
                 body_liveDemo := ""; body_sourceCode := Some "";
                 body_techStack := Wire.js_stack |}
              [ {| path := "a.png" |}; {| path := "b.png" |} ]
              Wire.absent_id 99 ["js"])
    as (post & Hr & _ & _ & Hu & Hi & _ & _ & _ & Ht & Hs);
    [done|reflexivity|reflexivity|].
  exists post. split_and!; [done..|].
  destruct (sourceCode post) as [s|] eqn:E; [|done].
  destruct (proj1 (Hs s) eq_refl) as [[= <-] Hne]. done.
Defined.

(** X2: when [JSON.parse] throws on the [techStack] field the route logs the
    error and answers 500 'Server error'; no post is stored and nobody is
    notified. *)
Theorem create_post_bad_techStack JSON_parse w userId body files newId now :
  files ≠ [] → JSON_parse (body_techStack body) = None →
  (post_posts JSON_parse userId body files newId now w).2 =
    {| status := 500; json := Msg "Server error" |}
  ∧ Posts (post_posts JSON_parse userId body files newId now w).1 = Posts w
  ∧ notified (post_posts JSON_parse userId body files newId now w).1
    = notified w
  ∧ length (console (post_posts JSON_parse userId body files newId now w).1)
    = S (length (console w)).
Proof.
  intros Hf Hj. unfold post_posts.
  rewrite decide_False by (destruct files; simpl; [done|lia]).
  run. rewrite Hj. simpl. split_and!; try done.
  rewrite length_app. simpl. lia.
Qed.

Lemma create_post_bad_techStack_witness :
  (post_posts (λ _, None) "bob"
     {| body_title := "t"; body_description := "d"; body_liveDemo := "";
        body_sourceCode := None; body_techStack := "{" |}
     [ {| path := "a.png" |} ] "p9" 99 Sample.world).2 =
    {| status := 500; json := Msg "Server error" |}
  ∧ Posts (post_posts (λ _, None) "bob"
     {| body_title := "t"; body_description := "d"; body_liveDemo := "";
        body_sourceCode := None; body_techStack := "{" |}
     [ {| path := "a.png" |} ] "p9" 99 Sample.world).1 = Posts Sample.world.
Proof.
  destruct (create_post_bad_techStack (λ _, None) Sample.world "bob"
     {| body_title := "t"; body_description := "d"; body_liveDemo := "";
        body_sourceCode := None; body_techStack := "{" |}
     [ {| path := "a.png" |} ] "p9" 99) as (H1 & H2 & _);
    [done|reflexivity|]. by split.
Defined.

(** ** What the routes never write *)

(** X3: a request answered 400, 401 or 404 has changed nothing: not the
    posts, not the notifications, not the log. *)
Theorem client_error_writes_nothing JSON_parse r w :
  status (handle JSON_parse r w).2 ∈ [400; 401; 404] →
  (handle JSON_parse r w).1 = w.
Proof.
  intros Hst.
  assert (status (handle JSON_parse r w).2 ≠ 200
          ∧ status (handle JSON_parse r w).2 ≠ 201
          ∧ status (handle JSON_parse r w).2 ≠ 500) as (H200 & H201 & H500).
  { repeat (apply elem_of_cons in Hst as [->|Hst]; [done|]).
    by apply elem_of_nil in Hst. }
  clear Hst. revert H200 H201 H500.
  destruct r as [u b f i t|p l|u p l|u|i|u i|u i|u i|i|u i t c n|u i c]; simpl.
  - unfold post_posts. run. by branches.
  - unfold get_posts, Post.exec. run. by branches.
  - unfold get_feed, Post.exec. run. by branches.
  - unfold get_saves, Post.exec. run. by branches.
  - unfold get_post. run. by branches.
  - unfold delete_post, owner_or_root. run. by branches.
  - unfold put_like. run. by branches.
  - unfold put_save. run. by branches.
  - unfold get_likes. run. by branches.
  - unfold post_comment. run. by branches.
  - unfold delete_comment, owner_or_root. run. by branches.
Qed.

Lemma client_error_writes_nothing_witness :
  (handle (λ _, None) (DeletePost "bob" "p1") Sample.world).1 = Sample.world.
Proof.
  apply (client_error_writes_nothing (λ _, None) (DeletePost "bob" "p1")
           Sample.world).
  vm_compute. apply elem_of_cons. right. apply elem_of_cons. by left.
Defined.

(** X4: the four reading routes (the two listings, the saved posts and
    the likes of a post) write nothing: posts, users, follower lists and
    notifications are what they were, whatever the answer.  GET
    /api/posts/:postId is not among them: it counts the view. *)
Theorem reading_routes_write_nothing JSON_parse r w :
  match r with
  | GetPosts _ _ | GetFeed _ _ _ | GetSaves _ | GetLikes _ => True
  | _ => False
  end →
  Posts (handle JSON_parse r w).1 = Posts w
  ∧ Users (handle JSON_parse r w).1 = Users w
  ∧ Followers (handle JSON_parse r w).1 = Followers w
  ∧ notified (handle JSON_parse r w).1 = notified w.
Proof.
  destruct r as [u b f i t|p l|u p l|u|i|u i|u i|u i|i|u i t c n|u i c];
    simpl; intros Hr; try (destruct Hr; fail).
  - unfold get_posts, Post.exec. run. branches; by split_and!.
  - unfold get_feed, Post.exec. run. branches; by split_and!.
  - unfold get_saves, Post.exec. run. by split_and!.
  - unfold get_likes. run. branches; by split_and!.
Qed.

Lemma reading_routes_write_nothing_witness :
  Posts (handle (λ _, None) (GetFeed "bob" None None) Sample.world).1
    = Posts Sample.world
  ∧ Users (handle (λ _, None) (GetFeed "bob" None None) Sample.world).1
    = Users Sample.world
  ∧ Followers (handle (λ _, None) (GetFeed "bob" None None) Sample.world).1
    = Followers Sample.world
  ∧ notified (handle (λ _, None) (GetFeed "bob" None None) Sample.world).1
    = notified Sample.world.
Proof.
  apply (reading_routes_write_nothing (λ _, None) (GetFeed "bob" None None)
           Sample.world).
  exact I.
Defined.

(** ** Listings *)

Lemma elem_of_matching cond w id post :
  (id, post) ∈ Post.matching cond w ↔
  Posts w !! id = Some post ∧ cond post = true.
Proof.
  unfold Post.matching. rewrite list_elem_of_filter, elem_of_map_to_list.
  simpl. tauto.
Qed.

Lemma NoDup_matching_ids cond w : NoDup (Post.matching cond w).*1.
Proof.
  unfold Post.matching.
  apply (sublist_NoDup _ (map_to_list (Posts w)).*1).
  - apply NoDup_fst_map_to_list.
  - apply fmap_sublist, sublist_filter.
Qed.

(** What the query of the listing routes returns is a run of consecutive
    documents of the newest-first listing. *)
Lemma exec_segment w w' cond s l docs :
  Post.exec (Post.sort_createdAt_desc (Post.limit l
      (Post.skip s (Post.find cond)))) w = (w', Ok docs) →
  w' = w ∧ ∃ a b,
    merge_sort Post.newer_first (Post.matching cond w) = a ++ docs ++ b.
Proof.
  unfold Post.exec. simpl. intros H.
  set (L := merge_sort Post.newer_first (Post.matching cond w)) in *.
  case_decide; [done|]. case_decide; simplify_eq.
  - split; [done|]. exists (take (Z.to_nat s) L), [].
    by rewrite app_nil_r, take_drop.
  - split; [done|].
    exists (take (Z.to_nat s) L),
           (drop (Z.abs_nat l) (drop (Z.to_nat s) L)).
    by rewrite !take_drop.
Qed.

Lemma segment_entries w cond a b docs :
  merge_sort Post.newer_first (Post.matching cond w) = a ++ docs ++ b →
  (∀ id post owner,
     (id, post, owner) ∈ with_owner w <$> docs →
     Posts w !! id = Some post ∧ cond post = true
     ∧ owner = Users w !! user post)
  ∧ NoDup (with_owner w <$> docs).*1.*1
  ∧ StronglySorted (λ x y, createdAt y.1.2 ≤ createdAt x.1.2)
      (with_owner w <$> docs).
Proof.
  intros HL.
  assert (docs `sublist_of` merge_sort Post.newer_first (Post.matching cond w))
    as Hsub.
  { rewrite HL. apply sublist_inserts_l, sublist_inserts_r. done. }
  split_and!.
  - intros id post owner ([id' post'] & [= -> -> ->] & Hin)%list_elem_of_fmap.
    eapply elem_of_sublist in Hin; [|done].
    rewrite merge_sort_Permutation in Hin.
    apply elem_of_matching in Hin as [? ?]. done.
  - assert ((with_owner w <$> docs).*1.*1 = docs.*1) as ->.
    { rewrite <-!list_fmap_compose. by apply list_fmap_ext. }
    eapply sublist_NoDup; [|by apply fmap_sublist].
    rewrite merge_sort_Permutation. apply NoDup_matching_ids.
  - pose proof (StronglySorted_merge_sort Post.newer_first
                  (Post.matching cond w)) as HS.
    rewrite HL in HS.
    apply StronglySorted_app_1_r, StronglySorted_app_1_l in HS.
    eapply (StronglySorted_fmap _ Post.newer_first); [|done].
    by intros x y.
Qed.

(** X5: whatever the query of GET /api/posts, every entry of the returned
    page is a stored post under its id together with its owner's document,
    no post is listed twice, and the page is in descending [createdAt]
    order. *)
Theorem listing_page_entries w q_page q_limit :
  let page := body_posts (json (get_posts q_page q_limit w).2) in
  (∀ id post owner,
     (id, post, owner) ∈ page →
     Posts w !! id = Some post ∧ owner = Users w !! user post)
  ∧ NoDup page.*1.*1
  ∧ StronglySorted (λ x y, createdAt y.1.2 ≤ createdAt x.1.2) page.
Proof.
  unfold get_posts. run.
  destruct (Post.exec _ w) as [w' [docs|e]] eqn:Hx; simpl.
  - apply exec_segment in Hx as (-> & a & b & HL).
    destruct (segment_entries _ _ _ _ _ HL) as (H1 & H2 & H3).
    split_and!; [|done..]. intros id post owner Hin.
    destruct (H1 _ _ _ Hin) as (? & _ & ?). done.
  - split_and!; [by intros ??? ?%elem_of_nil|constructor..].
Qed.

(** X6: whatever the query of GET /api/posts/feed, every post of the
    returned page is a stored post whose owner is on the requester's
    following list, and the page has no post twice and is in descending
    [createdAt] order. *)
Theorem feed_only_followed w userId q_page q_limit :
  let page := body_posts (json (get_feed userId q_page q_limit w).2) in
  (∀ id post owner,
     (id, post, owner) ∈ page →
     Posts w !! id = Some post
     ∧ ∃ follower,
         JS.find (λ f, follower_user f = userId) (Followers w)
           = Some follower
         ∧ user post ∈ following_user <$> following follower)
  ∧ NoDup page.*1.*1
  ∧ StronglySorted (λ x y, createdAt y.1.2 ≤ createdAt x.1.2) page.
Proof.
  unfold get_feed. run.
  destruct (JS.find _ (Followers w)) as [follower|] eqn:Hf; simpl;
    [|split_and!; [by intros ??? ?%elem_of_nil|constructor..]].
  destruct (Post.exec _ w) as [w' [docs|e]] eqn:Hx; simpl.
  - apply exec_segment in Hx as (-> & a & b & HL).
    destruct (segment_entries _ _ _ _ _ HL) as (H1 & H2 & H3).
    split_and!; [|done..]. intros id post owner Hin.
    destruct (H1 _ _ _ Hin) as (? & Hc%bool_decide_eq_true & ?).
    split; [done|]. by exists follower.
  - split_and!; [by intros ??? ?%elem_of_nil|constructor..].
Qed.

Lemma page_slice_next {A} (docs : list A) p l :
  1 ≤ p → 1 ≤ l →
  let next := next_page p l (Z.of_nat (length docs)) in
  (length (page_slice p l docs) ≤ Z.to_nat l)%nat
  ∧ (next = Some (p + 1) ∨ next = None)
  ∧ (next = Some (p + 1) →
     length (page_slice p l docs) = Z.to_nat l
     ∧ page_slice (p + 1) l docs ≠ [])
  ∧ (next = None →
     page_slice p l docs = drop (Z.to_nat ((p - 1) * l)) docs
     ∧ page_slice (p + 1) l docs = []).
Proof.
  intros Hp Hl. unfold next_page, page_slice. simpl.
  assert (Z.to_nat ((p + 1 - 1) * l) = Z.to_nat ((p - 1) * l) + Z.to_nat l)%nat
    as Hnext by nia.
  split_and!.
  - rewrite length_take. lia.
  - case_decide; auto.
  - case_decide as Hlt; [|done]. intros _. split.
    + rewrite length_take, length_drop. nia.
    + intros Hnil%(f_equal length). revert Hnil.
      rewrite length_take, length_drop. simpl. nia.
  - case_decide as Hlt; [done|]. intros _. split.
    + apply take_ge. rewrite length_drop. nia.
    + rewrite drop_ge; [by rewrite take_nil|]. nia.
Qed.

(** X7: for a page [p >= 1] and a limit [l >= 1], the [next] field of GET
    /api/posts is either [p + 1] or [null].  When it is [p + 1] the page is
    full ([l] posts) and page [p + 1] has at least one post; when it is
    [null] the page holds everything that is left and page [p + 1] is
    empty.  A page never has more than [l] posts. *)
Theorem next_iff_more_posts w q_page q_next q_limit p l :
  JS.parseInt_or q_page 1 = p → JS.parseInt_or q_next 1 = p + 1 →
  JS.parseInt_or q_limit 12 = l → 1 ≤ p → 1 ≤ l →
  let page := body_posts (json (get_posts q_page q_limit w).2) in
  let next := body_next (json (get_posts q_page q_limit w).2) in
  let page' := body_posts (json (get_posts q_next q_limit w).2) in
  (length page ≤ Z.to_nat l)%nat
  ∧ (next = Some (p + 1) ∨ next = None)
  ∧ (next = Some (p + 1) → length page = Z.to_nat l ∧ page' ≠ [])
  ∧ (next = None →
     page' = []
     ∧ Z.of_nat (size (Posts w)) ≤ (p - 1) * l + Z.of_nat (length page)).
Proof.
  intros Hqp Hqn Hql Hp Hl.
  pose proof (get_posts_page w q_page q_limit) as H1.
  pose proof (get_posts_page w q_next q_limit) as H2.
  rewrite Hqp, Hql in H1. rewrite Hqn, Hql in H2. simpl in H1, H2.
  rewrite H1, H2 by lia. simpl.
  set (L := merge_sort Post.newer_first (map_to_list (Posts w))).
  assert (length L = size (Posts w)) as HL.
  { unfold L. by rewrite merge_sort_Permutation, length_map_to_list. }
  rewrite <-HL.
  destruct (page_slice_next L p l Hp Hl) as (Ha & Hb & Hc & Hd).
  rewrite !length_fmap. split_and!; [done|done| |].
  - intros Hn. destruct (Hc Hn) as [? Hne]. split; [done|].
    intros Hnil%fmap_nil_inv. done.
  - intros Hn. destruct (Hd Hn) as [Hrest ->]. split; [done|].
    rewrite Hrest, length_drop.
    assert (0 ≤ (p - 1) * l) by nia. lia.
Qed.

Lemma next_iff_more_posts_witness :
  body_next (json (get_posts (Some "1") (Some "2") Sample.world).2) = Some 2
  ∧ length (body_posts
              (json (get_posts (Some "1") (Some "2") Sample.world).2)) = 2%nat
  ∧ body_posts (json (get_posts (Some "2") (Some "2") Sample.world).2) ≠ [].
Proof.
  destruct (next_iff_more_posts Sample.world (Some "1") (Some "2") (Some "2")
              1 2 eq_refl eq_refl eq_refl) as (_ & _ & Hfull & _);
    [lia|lia|].
  assert (body_next (json (get_posts (Some "1") (Some "2") Sample.world).2)
          = Some 2) as Hn by by vm_compute.
  destruct (Hfull Hn) as [? ?]. done.
Defined.

(** X8: a page or limit parameter that parses to [0] or does not parse is
    served as if it were absent, so [?page=0] is the first page and
    [?limit=0] is a limit of 12, on both listing routes. *)
Theorem zero_page_and_limit_default w userId q_page q_limit q :
  q ≫= JS.parseInt10 = Some 0 ∨ q ≫= JS.parseInt10 = None →
  get_posts q q_limit w = get_posts None q_limit w
  ∧ get_posts q_page q w = get_posts q_page None w
  ∧ get_feed userId q q_limit w = get_feed userId None q_limit w
  ∧ get_feed userId q_page q w = get_feed userId q_page None w.
Proof.
  intros Hq.
  assert (∀ d, JS.parseInt_or q d = JS.parseInt_or None d) as Hd.
  { intros d. unfold JS.parseInt_or. by destruct Hq as [-> | ->]. }
  unfold get_posts, get_feed. by rewrite !Hd.
Qed.

Lemma zero_page_and_limit_default_witness :
  get_posts (Some "0") (Some "5") Sample.world
    = get_posts None (Some "5") Sample.world
  ∧ get_posts (Some "2") (Some "0") Sample.world
    = get_posts (Some "2") None Sample.world.
Proof.
  destruct (zero_page_and_limit_default Sample.world "alice" (Some "2")
              (Some "5") (Some "0")) as (H1 & H2 & _); [by left|].
  by split.
Defined.

(** ** Saved posts *)

Lemma get_saves_result w userId :
  get_saves userId w =
    (w, {| status := 200;
           json := JPosts
             (with_owner w <$>
                Post.matching
                  (λ p, bool_decide (userId ∈ like_user <$> saves p)) w) |}).
Proof.
  unfold get_saves, Post.exec. run. change (Z.to_nat 0) with 0%nat.
  by rewrite drop_0.
Qed.

(** X9: GET /api/posts/saves answers 200 with exactly the stored posts in
    whose saves array the requester has an entry, each with its owner's
    document, and changes nothing. *)
Theorem saves_lists_saved_posts w userId :
  ∃ posts,
    get_saves userId w = (w, {| status := 200; json := JPosts posts |})
    ∧ NoDup posts.*1.*1
    ∧ ∀ id post owner,
        (id, post, owner) ∈ posts ↔
        Posts w !! id = Some post ∧ has_entry userId (saves post)
        ∧ owner = Users w !! user post.
Proof.
  rewrite get_saves_result. eexists. split; [done|]. split.
  - rewrite <-!list_fmap_compose.
    erewrite (list_fmap_ext _ fst); [apply NoDup_matching_ids|done].
  - intros id post owner. rewrite list_elem_of_fmap. split.
    + intros ([id' post'] & [= -> -> ->] & Hin).
      apply elem_of_matching in Hin as [? Hc%bool_decide_eq_true]. done.
    + intros (Hp & Hs & ->). exists (id, post). split; [done|].
      apply elem_of_matching. split; [done|]. by apply bool_decide_eq_true.
Qed.

(** ** More on the toggles *)

Lemma toggle_other u v l : v ≠ u → has_entry v (toggle u l) ↔ has_entry v l.
Proof.
  intros Hne. unfold toggle. case_decide as H.
  - destruct (remove_first_spliced (λ e, like_user e = u) l
                (proj1 (has_entry_Exists u l) H))
      as (a & x & b & Hl & Hx & _ & ->).
    rewrite Hl. unfold has_entry.
    rewrite !fmap_app, fmap_cons, !elem_of_app, elem_of_cons, Hx.
    split; [tauto|]. intros [?|[?|?]]; [tauto|done|tauto].
  - unfold has_entry. rewrite fmap_cons, elem_of_cons. simpl.
    split; [intros [?|?]; done|auto].
Qed.

Lemma toggle_length u l :
  (¬ has_entry u l → length (toggle u l) = S (length l))
  ∧ (has_entry u l → S (length (toggle u l)) = length l).
Proof.
  unfold toggle. case_decide as H; split; try done. intros _.
  destruct (remove_first_spliced (λ e, like_user e = u) l
              (proj1 (has_entry_Exists u l) H))
    as (a & x & b & Hl & _ & _ & ->).
  rewrite Hl. rewrite !length_app. simpl. lia.
Qed.

Lemma toggle_self u l :
  (¬ has_entry u l → has_entry u (toggle u l))
  ∧ (has_entry u l → unique_users l → ¬ has_entry u (toggle u l)).
Proof.
  unfold toggle. case_decide as H; split; try done.
  - intros _ Hnd. eapply spliced_first_absent; [done|].
    apply remove_first_spliced. by apply has_entry_Exists.
  - intros _. unfold has_entry. rewrite fmap_cons. by left.
Qed.

(** X10: a like toggle changes the likes of the post for the requester
    only.  Every other user has an entry afterwards exactly if they had one
    before; the array grows by one entry when the requester had none and
    shrinks by one when they had one; and when the array held one entry per
    user, the requester has none left after an unlike.  Saves, comments,
    views and owner of the post stay as they were. *)
Theorem like_toggle_touches_requester_only w userId postId post :
  Posts w !! postId = Some post →
  ∃ post',
    Posts (put_like userId postId w).1 !! postId = Some post'
    ∧ (∀ v, v ≠ userId →
            has_entry v (likes post') ↔ has_entry v (likes post))
    ∧ (¬ has_entry userId (likes post) →
       has_entry userId (likes post')
       ∧ length (likes post') = S (length (likes post)))
    ∧ (has_entry userId (likes post) →
       S (length (likes post')) = length (likes post)
       ∧ (unique_users (likes post) → ¬ has_entry userId (likes post')))
    ∧ saves post' = saves post ∧ comments post' = comments post
    ∧ views post' = views post ∧ user post' = user post.
Proof.
  intros Hp. eexists. rewrite (Posts_put_like _ _ _ _ Hp).
  split; [apply lookup_insert_eq|]. simpl. split_and!; try done.
  - intros v Hv. by apply toggle_other.
  - intros H. split; [by apply toggle_self|by apply toggle_length].
  - intros H. split; [by apply toggle_length|].
    intros Hnd. by apply toggle_self.
Qed.

Lemma like_toggle_touches_requester_only_witness :
  ∃ post',
    Posts (put_like "bob" "p1" Sample.world).1 !! "p1" = Some post'
    ∧ (has_entry "carol" (likes post')
       ↔ has_entry "carol" (likes Sample.p1))
    ∧ S (length (likes post')) = length (likes Sample.p1)
    ∧ ¬ has_entry "bob" (likes post').
Proof.
  destruct (like_toggle_touches_requester_only Sample.world "bob" "p1"
              Sample.p1 eq_refl) as (post' & H1 & H2 & _ & H3 & _).
  assert (has_entry "bob" (likes Sample.p1)) as Hbob.
  { unfold has_entry. simpl. apply elem_of_cons. right.
    apply elem_of_cons. by left. }
  destruct (H3 Hbob) as [Hlen Hgone].
  exists post'. split_and!; [done| |done|].
  - apply H2. discriminate.
  - apply Hgone, sample_p1_unique.
Defined.

(** X11: the same for the save toggle and the saves array; the likes of
    the post are not touched and nobody is notified. *)
Theorem save_toggle_touches_requester_only w userId postId post :
  Posts w !! postId = Some post →
  ∃ post',
    Posts (put_save userId postId w).1 !! postId = Some post'
    ∧ (∀ v, v ≠ userId →
            has_entry v (saves post') ↔ has_entry v (saves post))
    ∧ (¬ has_entry userId (saves post) →
       has_entry userId (saves post')
       ∧ length (saves post') = S (length (saves post)))
    ∧ (has_entry userId (saves post) →
       S (length (saves post')) = length (saves post)
       ∧ (unique_users (saves post) → ¬ has_entry userId (saves post')))
    ∧ likes post' = likes post ∧ comments post' = comments post
    ∧ views post' = views post ∧ user post' = user post
    ∧ notified (put_save userId postId w).1 = notified w.
Proof.
  intros Hp. eexists. rewrite (put_save_found _ _ _ _ Hp). simpl.
  split; [apply lookup_insert_eq|]. simpl. split_and!; try done.
  - intros v Hv. by apply toggle_other.
  - intros H. split; [by apply toggle_self|by apply toggle_length].
  - intros H. split; [by apply toggle_length|].
    intros Hnd. by apply toggle_self.
Qed.

Lemma save_toggle_touches_requester_only_witness :
  ∃ post',
    Posts (put_save "dave" "p1" Sample.world).1 !! "p1" = Some post'
    ∧ has_entry "dave" (saves post')
    ∧ length (saves post') = S (length (saves Sample.p1))
    ∧ notified (put_save "dave" "p1" Sample.world).1 = [].
Proof.
  destruct (save_toggle_touches_requester_only Sample.world "dave" "p1"
              Sample.p1 eq_refl)
    as (post' & H1 & _ & H2 & _ & _ & _ & _ & _ & H3).
  assert (¬ has_entry "dave" (saves Sample.p1)) as Hdave.
  { unfold has_entry. simpl. intros Hin.
    repeat (apply elem_of_cons in Hin as [?|Hin]; [discriminate|]).
    by apply elem_of_nil in Hin. }
  destruct (H2 Hdave) as [? ?]. by exists post'.
Defined.

(** An unlike takes one entry away: on an array that holds the user twice
    the user still has an entry afterwards. *)
Example unlike_with_two_entries :
  toggle "bob" [Sample.entry "bob"; Sample.entry "carol"; Sample.entry "bob"]
    = [Sample.entry "carol"; Sample.entry "bob"].
Proof. reflexivity. Qed.

(** X12: after a save toggle by a user who had not saved the post, GET
    /api/posts/saves of that user lists the post; after a save toggle by a
    user who had saved it, in an array with one entry per user, the post is
    no longer listed. *)
Theorem save_then_listed w userId postId post :
  Posts w !! postId = Some post →
  let w' := (put_save userId postId w).1 in
  let listed := body_posts (json (get_saves userId w').2) in
  (¬ has_entry userId (saves post) → postId ∈ listed.*1.*1)
  ∧ (has_entry userId (saves post) → unique_users (saves post) →
     postId ∉ listed.*1.*1).
Proof.
  intros Hp w' listed.
  set (post' := set_saves (toggle userId (saves post)) post).
  assert (Posts w' !! postId = Some post') as Hp'.
  { unfold w'. rewrite (Posts_put_save _ _ _ _ Hp). apply lookup_insert_eq. }
  assert (∀ id, id ∈ listed.*1.*1 ↔
                ∃ p, Posts w' !! id = Some p ∧ has_entry userId (saves p))
    as Hlisted.
  { intros id. unfold listed. rewrite get_saves_result. simpl.
    rewrite <-!list_fmap_compose.
    erewrite (list_fmap_ext _ fst); [|done].
    rewrite list_elem_of_fmap. split.
    - intros ([id' p] & -> & [? Hc%bool_decide_eq_true]%elem_of_matching).
      by exists p.
    - intros (p & ? & ?). exists (id, p). split; [done|].
      apply elem_of_matching. split; [done|]. by apply bool_decide_eq_true. }
  split.
  - intros H. apply Hlisted. exists post'. split; [done|].
    by apply toggle_self.
  - intros H Hnd (p & Hl & Hs)%Hlisted. rewrite Hp' in Hl. simplify_eq.
    revert Hs. by apply toggle_self.
Qed.

Lemma save_then_listed_witness :
  "p1" ∈ (body_posts
            (json (get_saves "dave"
                     (put_save "dave" "p1" Sample.world).1).2)).*1.*1
  ∧ "p1" ∉ (body_posts
              (json (get_saves "bob"
                       (put_save "bob" "p1" Sample.world).1).2)).*1.*1.
Proof.
  split.
  - apply (save_then_listed Sample.world "dave" "p1" Sample.p1 eq_refl).
    unfold has_entry. simpl. intros Hin.
    repeat (apply elem_of_cons in Hin as [?|Hin]; [discriminate|]).
    by apply elem_of_nil in Hin.
  - apply (save_then_listed Sample.world "bob" "p1" Sample.p1 eq_refl).
    + unfold has_entry. simpl. apply elem_of_cons. right.
      apply elem_of_cons. by left.
    + apply sample_p1_unique.
Defined.

Lemma put_like_world u i w :
  (put_like u i w).1 =
    match Posts w !! i with
    | None => w
    | Some p =>
        let w1 :=
          set_Posts (<[i := set_likes (toggle u (likes p)) p]> (Posts w)) w in
        if decide (user p ≠ u)
        then add_notified
               (if decide (has_entry u (likes p))
                then RemoveLike (user p) u i else NewLike (user p) u i) w1
        else w1
    end.
Proof.
  destruct (Posts w !! i) as [p|] eqn:Hp.
  - rewrite (put_like_found _ _ _ _ Hp). simpl. by case_decide.
  - by rewrite put_like_missing.
Qed.

Lemma put_save_world u i w :
  (put_save u i w).1 =
    match Posts w !! i with
    | None => w
    | Some p =>
        set_Posts (<[i := set_saves (toggle u (saves p)) p]> (Posts w)) w
    end.
Proof.
  destruct (Posts w !! i) as [p|] eqn:Hp.
  - by rewrite (put_save_found _ _ _ _ Hp).
  - by rewrite put_save_missing.
Qed.

(** X13: a like toggle and a save toggle do not interfere: whoever makes
    them and on whichever posts, the two orders leave the same world (posts,
    notifications and all). *)
Theorem like_and_save_commute w u1 i u2 j :
  (put_save u2 j (put_like u1 i w).1).1
  = (put_like u1 i (put_save u2 j w).1).1.
Proof.
  rewrite (put_save_world u2 j (put_like u1 i w).1), (put_like_world u1 i w).
  rewrite (put_like_world u1 i (put_save u2 j w).1), (put_save_world u2 j w).
  destruct (Posts w !! i) as [p|] eqn:Hi, (Posts w !! j) as [q|] eqn:Hj;
    simpl.
  - destruct (decide (i = j)) as [->|Hne].
    + simplify_eq.
      destruct (decide (user p ≠ u1)); simpl; rewrite !lookup_insert_eq;
        simpl; repeat case_decide; try done;
        unfold set_Posts, add_notified; simpl;
        by rewrite !insert_insert_eq.
    + destruct (decide (user p ≠ u1)); simpl;
        rewrite !lookup_insert_ne, ?Hi, ?Hj by done; simpl;
        repeat case_decide; try done;
        unfold set_Posts, add_notified; simpl;
        by rewrite insert_insert_ne.
  - assert (i ≠ j) by congruence.
    destruct (decide (user p ≠ u1)); simpl;
      rewrite ?lookup_insert_ne by done; rewrite ?Hj, ?Hi; simpl;
      by repeat case_decide.
  - assert (i ≠ j) by congruence.
    rewrite ?lookup_insert_ne by done. by rewrite ?Hi, ?Hj.
  - by rewrite ?Hi, ?Hj.
Qed.

(** ** Counting views *)

(** X14: [n] GETs of an existing post raise its [views] by [n] and change
    nothing else of it; the other posts are untouched and nobody is
    notified. *)
Theorem views_count_the_gets n w postId post :
  Posts w !! postId = Some post →
  Posts (get_post_times n postId w) !! postId
    = Some (set_views (views post + Z.of_nat n) post)
  ∧ (∀ other, other ≠ postId →
       Posts (get_post_times n postId w) !! other = Posts w !! other)
  ∧ notified (get_post_times n postId w) = notified w.
Proof.
  revert w post. induction n as [|n IH]; intros w post Hp.
  - simpl. split_and!; [|done..]. rewrite Hp. f_equal.
    destruct post. unfold set_views. simpl. f_equal. lia.
  - simpl. rewrite (get_post_found _ _ _ Hp). simpl.
    edestruct (IH (set_Posts (<[postId := set_views (views post + 1) post]>
                                (Posts w)) w)) as (H1 & H2 & H3).
    { simpl. apply lookup_insert_eq. }
    split_and!.
    + rewrite H1. f_equal. unfold set_views. simpl. f_equal. lia.
    + intros other Hne. rewrite H2 by done. simpl.
      by rewrite lookup_insert_ne.
    + by rewrite H3.
Qed.

Lemma views_count_the_gets_witness :
  views <$> Posts (get_post_times 4 "p1" Sample.world) !! "p1" = Some 7
  ∧ Posts (get_post_times 4 "p1" Sample.world) !! "p2" = Some Sample.p2.
Proof.
  destruct (views_count_the_gets 4 Sample.world "p1" Sample.p1 eq_refl)
    as (H1 & H2 & _).
  split; [by rewrite H1|]. by rewrite H2.
Defined.

(** ** Comments *)

(** X15: POST /api/posts/comment/:postId with a non-empty text on an
    existing post puts the new comment, written by the requester with the
    given text, in front of the post's comments, which keep their order;
    it answers 201 with the comments, each next to its author's document.
    Likes, saves, views and owner of the post are untouched. *)
Theorem comment_is_prepended w userId postId text uuid now post :
  text ≠ "" → Posts w !! postId = Some post →
  let new := {| comment_id := uuid; comment_user := userId;
                comment_text := text; comment_date := now |} in
  (post_comment userId postId text uuid now w).2 =
    {| status := 201;
       json := JComments
         ((new, Users w !! userId)
          :: ((λ c, (c, Users w !! comment_user c)) <$> comments post)) |}
  ∧ ∃ post',
      Posts (post_comment userId postId text uuid now w).1
        = <[postId := post']> (Posts w)
      ∧ comments post' = new :: comments post
      ∧ likes post' = likes post ∧ saves post' = saves post
      ∧ views post' = views post ∧ user post' = user post.
Proof.
  intros Ht Hp new. rewrite (post_comment_found _ _ _ _ _ _ _ Ht Hp). simpl.
  split; [done|]. eexists. split; [by case_decide|]. done.
Qed.

Lemma comment_is_prepended_witness :
  (post_comment "carol" "p1" "hi" "c2" 99 Sample.world).2 =
    {| status := 201;
       json := JComments
         [ ({| comment_id := "c2"; comment_user := "carol";
               comment_text := "hi"; comment_date := 99 |},
            Some Sample.member);
           (Sample.c1, Some Sample.member) ] |}.
Proof.
  destruct (comment_is_prepended Sample.world "carol" "p1" "hi" "c2" 99
              Sample.p1) as [H _]; [discriminate|reflexivity|].
  rewrite H. reflexivity.
Defined.

Lemma find_Exists {A} (P : A → Prop) `{!∀ x, Decision (P x)} l x :
  JS.find P l = Some x → Exists P l.
Proof.
  unfold JS.find. intros Hf.
  destruct (list_find P l) as [[i y]|] eqn:E; simplify_eq/=.
  apply list_find_Some in E as (Hi & HP & _).
  apply Exists_exists. exists x. split; [|done].
  by eapply list_elem_of_lookup_2.
Qed.

Lemma find_None_iff {A} (P : A → Prop) `{!∀ x, Decision (P x)} l :
  JS.find P l = None ↔ ¬ Exists P l.
Proof.
  unfold JS.find. split.
  - intros Hf HE. destruct (list_find_is_Some P l HE) as [[i y] E].
    by rewrite E in Hf.
  - intros HE. destruct (list_find P l) as [[i y]|] eqn:E; [|done].
    destruct HE. apply list_find_Some in E as (Hi & HP & _).
    apply Exists_exists. exists y. split; [|done].
    by eapply list_elem_of_lookup_2.
Qed.

(** The author of a comment is served without the role being read. *)
Lemma delete_comment_by_author w userId postId commentId post comment :
  Posts w !! postId = Some post →
  JS.find (λ c, comment_id c = commentId) (comments post) = Some comment →
  comment_user comment = userId →
  delete_comment userId postId commentId w =
    let post' :=
      set_comments
        (remove_first (λ c, comment_id c = commentId) (comments post))
        post in
    let w1 := set_Posts (<[postId := post']> (Posts w)) w in
    (if decide (user post ≠ userId)
     then add_notified
            (RemoveComment (user post) userId postId (comment_id comment)) w1
     else w1,
     {| status := 200;
        json := JComments ((λ c, (c, Users w !! comment_user c))
                             <$> comments post') |}).
Proof.
  intros Hp Hc Hu. unfold delete_comment, owner_or_root. run.
  rewrite Hp, Hc. rewrite decide_True by done. simpl.
  rewrite splice1_findIndex_remove_first by by eapply find_Exists.
  by case_decide.
Qed.

Lemma set_comments_same post : set_comments (comments post) post = post.
Proof. by destruct post. Qed.

(** X16: adding a comment and then deleting it, by the same user and under
    the id it was given, brings the posts back to what they were; the
    deletion is answered 200 with the comments as they were before.  The
    user needs no role for it, and it holds even when an older comment
    carries the same id, since the new comment is found first. *)
Theorem comment_add_then_delete w userId postId text uuid now post :
  text ≠ "" → Posts w !! postId = Some post →
  let w1 := (post_comment userId postId text uuid now w).1 in
  Posts (delete_comment userId postId uuid w1).1 = Posts w
  ∧ (delete_comment userId postId uuid w1).2 =
      {| status := 200;
         json := JComments ((λ c, (c, Users w !! comment_user c))
                              <$> comments post) |}.
Proof.
  intros Ht Hp w1.
  set (new := {| comment_id := uuid; comment_user := userId;
                 comment_text := text; comment_date := now |}).
  set (post1 := set_comments (new :: comments post) post).
  assert (Posts w1 = <[postId := post1]> (Posts w) ∧ Users w1 = Users w)
    as [HP1 HU1].
  { unfold w1. rewrite (post_comment_found _ _ _ _ _ _ _ Ht Hp). simpl.
    by case_decide. }
  assert (Posts w1 !! postId = Some post1) as Hp1.
  { rewrite HP1. apply lookup_insert_eq. }
  assert (JS.find (λ c, comment_id c = uuid) (comments post1) = Some new)
    as Hfind.
  { unfold JS.find. simpl. by rewrite decide_True. }
  rewrite (delete_comment_by_author w1 userId postId uuid post1 new
             Hp1 Hfind eq_refl). simpl.
  rewrite (decide_True (P := uuid = uuid)) by done. rewrite HU1.
  split; [|done].
  assert (set_comments (comments post) post1 = post) as ->.
  { unfold post1. by destruct post. }
  case_decide; simpl; rewrite HP1, insert_insert_eq; by apply insert_id.
Qed.

Lemma comment_add_then_delete_witness :
  Posts (delete_comment "carol" "p1" "c1"
           (post_comment "carol" "p1" "hi" "c1" 99 Sample.world).1).1
    = Posts Sample.world.
Proof.
  apply (comment_add_then_delete Sample.world "carol" "p1" "hi" "c1" 99
           Sample.p1); [discriminate|reflexivity].
Defined.

(** X17: on an existing post that has no comment with the given id, DELETE
    /api/posts/comment/:postId/:commentId answers 404 'Comment not found',
    whoever asks, and changes nothing. *)
Theorem delete_unknown_comment w userId postId commentId post :
  Posts w !! postId = Some post →
  commentId ∉ comment_id <$> comments post →
  delete_comment userId postId commentId w =
    (w, {| status := 404; json := Msg "Comment not found" |}).
Proof.
  intros Hp Hno. unfold delete_comment. run. rewrite Hp.
  assert (JS.find (λ c, comment_id c = commentId) (comments post) = None)
    as ->; [|done].
  apply find_None_iff. intros (c & Hin & Hc)%Exists_exists.
  apply Hno, list_elem_of_fmap. by exists c.
Qed.

Lemma delete_unknown_comment_witness :
  delete_comment "dave" "p1" "c7" Sample.world =
    (Sample.world, {| status := 404; json := Msg "Comment not found" |}).
Proof.
  apply (delete_unknown_comment Sample.world "dave" "p1" "c7" Sample.p1);
    [reflexivity|].
  simpl. intros Hin.
  repeat (apply elem_of_cons in Hin as [?|Hin]; [discriminate|]).
  by apply elem_of_nil in Hin.
Defined.

Lemma spliced_first_others {A} (P : A → Prop) `{!∀ x, Decision (P x)}
    (l l' : list A) :
  spliced_first P l l' →
  S (length l') = length l
  ∧ filter (λ x, ¬ P x) l' = filter (λ x, ¬ P x) l.
Proof.
  intros (a & x & b & -> & Hx & _ & ->). split.
  - rewrite !length_app. simpl. lia.
  - rewrite !filter_app, filter_cons. by rewrite decide_False by tauto.
Qed.

(** X18: a permitted deletion takes exactly one comment away: the post has
    one comment less, every comment with another id is still there in the
    same order, and likes, saves, views and owner of the post are
    untouched. *)
Theorem delete_comment_removes_one
    w userId postId commentId post comment requester :
  Posts w !! postId = Some post →
  JS.find (λ c, comment_id c = commentId) (comments post) = Some comment →
  Users w !! userId = Some requester →
  may_delete (comment_user comment) userId requester →
  ∃ post',
    Posts (delete_comment userId postId commentId w).1
      = <[postId := post']> (Posts w)
    ∧ S (length (comments post')) = length (comments post)
    ∧ filter (λ c, comment_id c ≠ commentId) (comments post')
      = filter (λ c, comment_id c ≠ commentId) (comments post)
    ∧ comments post' `sublist_of` comments post
    ∧ likes post' = likes post ∧ saves post' = saves post
    ∧ views post' = views post ∧ user post' = user post.
Proof.
  intros Hp Hc Hu Hm.
  rewrite (delete_comment_found _ _ _ _ _ _ _ Hp Hc Hu).
  rewrite decide_True by done. simpl.
  pose proof (remove_first_spliced (λ c, comment_id c = commentId)
                (comments post) (find_Exists _ _ _ Hc)) as Hs.
  destruct (spliced_first_others _ _ _ Hs) as [Hlen Hfil].
  eexists. split; [by case_decide|]. simpl. split_and!; try done.
  by eapply spliced_first_sublist.
Qed.

Lemma delete_comment_removes_one_witness :
  ∃ post',
    Posts (delete_comment "dave" "p1" "c1" Sample.world).1
      = <["p1" := post']> (Posts Sample.world)
    ∧ S (length (comments post')) = length (comments Sample.p1)
    ∧ likes post' = likes Sample.p1.
Proof.
  destruct (delete_comment_removes_one Sample.world "dave" "p1" "c1"
              Sample.p1 Sample.c1 Sample.admin)
    as (post' & H1 & H2 & _ & _ & H3 & _);
    [reflexivity|reflexivity|reflexivity|by right|].
  by exists post'.
Defined.

(** ** Notifications, over all requests *)

(** X19: whatever the request, the record of notification calls only grows,
    by at most one call; a call is made only by a request answered 200 or
    201, it notifies the owner of the stored post it is about, and it never
    notifies the user whose action it reports. *)
Theorem notifications_go_to_the_owner JSON_parse r w :
  ∃ ns,
    notified (handle JSON_parse r w).1 = notified w ++ ns
    ∧ (length ns ≤ 1)%nat
    ∧ ∀ n, n ∈ ns →
        userToNotify n ≠ actor n
        ∧ (∃ post, Posts w !! notified_post n = Some post
                   ∧ user post = userToNotify n)
        ∧ status (handle JSON_parse r w).2 ∈ [200; 201].
Proof.
  destruct r as [u b f i t|p l|u p l|u|i|u i|u i|u i|i|u i t c n|u i c]; simpl.
  - unfold post_posts. run. branches.
    all: exists []; rewrite ?app_nil_r; split_and!;
      [done|simpl; lia|by intros ? ?%elem_of_nil].
  - unfold get_posts, Post.exec. run. branches.
    all: exists []; rewrite ?app_nil_r; split_and!;
      [done|simpl; lia|by intros ? ?%elem_of_nil].
  - unfold get_feed, Post.exec. run. branches.
    all: exists []; rewrite ?app_nil_r; split_and!;
      [done|simpl; lia|by intros ? ?%elem_of_nil].
  - unfold get_saves, Post.exec. run. branches.
    all: exists []; rewrite ?app_nil_r; split_and!;
      [done|simpl; lia|by intros ? ?%elem_of_nil].
  - unfold get_post. run. branches.
    all: exists []; rewrite ?app_nil_r; split_and!;
      [done|simpl; lia|by intros ? ?%elem_of_nil].
  - unfold delete_post, owner_or_root. run. branches.
    all: exists []; rewrite ?app_nil_r; split_and!;
      [done|simpl; lia|by intros ? ?%elem_of_nil].
  - unfold put_like. run. branches.
    all: first
      [ by (exists []; rewrite ?app_nil_r; split_and!;
              [done|simpl; lia|by intros ? ?%elem_of_nil])
      | eexists [_]; split_and!; [done|simpl; lia|];
        intros ? ->%list_elem_of_singleton; simpl;
        split_and!; [done|by eexists|by repeat constructor] ].
  - unfold put_save. run. branches.
    all: exists []; rewrite ?app_nil_r; split_and!;
      [done|simpl; lia|by intros ? ?%elem_of_nil].
  - unfold get_likes. run. branches.
    all: exists []; rewrite ?app_nil_r; split_and!;
      [done|simpl; lia|by intros ? ?%elem_of_nil].
  - unfold post_comment. run. branches.
    all: first
      [ by (exists []; rewrite ?app_nil_r; split_and!;
              [done|simpl; lia|by intros ? ?%elem_of_nil])
      | eexists [_]; split_and!; [done|simpl; lia|];
        intros ? ->%list_elem_of_singleton; simpl;
        split_and!; [done|by eexists|by repeat constructor] ].
  - unfold delete_comment, owner_or_root. run. branches.
    all: first
      [ by (exists []; rewrite ?app_nil_r; split_and!;
              [done|simpl; lia|by intros ? ?%elem_of_nil])
      | eexists [_]; split_and!; [done|simpl; lia|];
        intros ? ->%list_elem_of_singleton; simpl;
        split_and!; [done|by eexists|by repeat constructor] ].
Qed.

(** ** After a post is deleted *)

(** X20: once DELETE /api/posts/:postId has succeeded, the routes that
    take that id answer 404 'Post not found' (reading, deleting again,
    toggling a like), every other post is still stored as it was, and the
    deletion has notified nobody. *)
Theorem deleted_post_is_gone w userId postId post requester :
  Posts w !! postId = Some post → Users w !! userId = Some requester →
  may_delete (user post) userId requester →
  let w' := (delete_post userId postId w).1 in
  get_post postId w' = (w', not_found)
  ∧ (∀ u, delete_post u postId w' = (w', not_found))
  ∧ (∀ u, put_like u postId w' = (w', not_found))
  ∧ (∀ other, other ≠ postId → Posts w' !! other = Posts w !! other)
  ∧ notified w' = notified w.
Proof.
  intros Hp Hu Hm w'.
  assert (w' = set_Posts (delete postId (Posts w)) w) as Hw'.
  { unfold w'. rewrite (delete_post_found _ _ _ _ _ Hp Hu).
    by rewrite decide_True. }
  assert (Posts w' !! postId = None) as Hgone.
  { rewrite Hw'. simpl. apply lookup_delete_eq. }
  split_and!.
  - by apply get_post_missing.
  - intros u. by apply delete_post_missing.
  - intros u. by apply put_like_missing.
  - intros other Hne. rewrite Hw'. simpl. by apply lookup_delete_ne.
  - by rewrite Hw'.
Qed.

Lemma deleted_post_is_gone_witness :
  get_post "p1" (delete_post "alice" "p1" Sample.world).1
    = ((delete_post "alice" "p1" Sample.world).1, not_found)
  ∧ Posts (delete_post "alice" "p1" Sample.world).1 !! "p2"
    = Some Sample.p2.
Proof.
  destruct (deleted_post_is_gone Sample.world "alice" "p1" Sample.p1
              Sample.member) as (H1 & _ & _ & H2 & _);
    [reflexivity|reflexivity|by left|].
  split; [done|]. by rewrite H2.
Defined.

(** ** Reading the likes *)

(** X21: GET /api/posts/like/:postId on an existing post answers 200 with
    the likes in the order of the array, each next to its user's document
    ([null] for a user that is gone), and changes nothing; right after a
    like by a user who had none, that user's entry comes first. *)
Theorem likes_are_listed_newest_first w userId postId post :
  Posts w !! postId = Some post →
  get_likes postId w =
    (w, {| status := 200;
           json := JLikes ((λ l, (l, Users w !! like_user l))
                             <$> likes post) |})
  ∧ (¬ has_entry userId (likes post) →
     (get_likes postId (put_like userId postId w).1).2 =
       {| status := 200;
          json := JLikes
            (({| like_user := userId |}, Users w !! userId)
             :: ((λ l, (l, Users w !! like_user l)) <$> likes post)) |}).
Proof.
  intros Hp. split.
  - unfold get_likes. run. by rewrite Hp.
  - intros Hno. rewrite (put_like_world userId postId w), Hp. simpl.
    unfold get_likes. run.
    case_decide; simpl; rewrite lookup_insert_eq; simpl;
      unfold toggle; by rewrite decide_False.
Qed.

Lemma likes_are_listed_newest_first_witness :
  (get_likes "p1" (put_like "dave" "p1" Sample.world).1).2 =
    {| status := 200;
       json := JLikes [ (Sample.entry "dave", Some Sample.admin);
                        (Sample.entry "carol", Some Sample.member);
                        (Sample.entry "bob", Some Sample.member) ] |}.
Proof.
  destruct (likes_are_listed_newest_first Sample.world "dave" "p1" Sample.p1
              eq_refl) as [_ H].
  rewrite H; [reflexivity|].
  unfold has_entry. simpl. intros Hin.
  repeat (apply elem_of_cons in Hin as [?|Hin]; [discriminate|]).
  by apply elem_of_nil in Hin.
Defined.

(** ** Requesters the store does not know *)

(** X22: GET /api/posts/feed for a requester without a [Follower] document
    reads [following] off [null]: the route logs the error and answers 500
    'Server error', with the posts and the notifications as they were. *)
Theorem feed_without_follower_doc w userId q_page q_limit :
  userId ∉ follower_user <$> Followers w →
  (get_feed userId q_page q_limit w).2 =
    {| status := 500; json := Msg "Server error" |}
  ∧ Posts (get_feed userId q_page q_limit w).1 = Posts w
  ∧ notified (get_feed userId q_page q_limit w).1 = notified w
  ∧ length (console (get_feed userId q_page q_limit w).1)
    = S (length (console w)).
Proof.
  intros Hno.
  assert (JS.find (λ f, follower_user f = userId) (Followers w) = None) as Hf.
  { apply find_None_iff. intros (f & Hin & Hu)%Exists_exists.
    apply Hno, list_elem_of_fmap. by exists f. }
  unfold get_feed. run. rewrite Hf. simpl. split_and!; try done.
  rewrite length_app. simpl. lia.
Qed.

Lemma feed_without_follower_doc_witness :
  (get_feed "bob" None None Sample.world).2 =
    {| status := 500; json := Msg "Server error" |}
  ∧ Posts (get_feed "bob" None None Sample.world).1 = Posts Sample.world.
Proof.
  destruct (feed_without_follower_doc Sample.world "bob" None None)
    as (H1 & H2 & _); [|by split].
  simpl. intros Hin.
  repeat (apply elem_of_cons in Hin as [?|Hin]; [discriminate|]).
  by apply elem_of_nil in Hin.
Defined.

(** X23: a requester without a user document who is not the owner of the
    post makes DELETE /api/posts/:postId read [role] off [null]: the answer
    is 500 'Server error' and the post stays; the same happens on DELETE
    /api/posts/comment/:postId/:commentId when the requester is not the
    author of the comment. *)
Theorem stranger_without_user_doc w userId postId post :
  Posts w !! postId = Some post → Users w !! userId = None →
  (user post ≠ userId →
   (delete_post userId postId w).2 =
     {| status := 500; json := Msg "Server error" |}
   ∧ Posts (delete_post userId postId w).1 = Posts w)
  ∧ (∀ commentId comment,
       JS.find (λ c, comment_id c = commentId) (comments post)
         = Some comment →
       comment_user comment ≠ userId →
       (delete_comment userId postId commentId w).2 =
         {| status := 500; json := Msg "Server error" |}
       ∧ Posts (delete_comment userId postId commentId w).1 = Posts w).
Proof.
  intros Hp Hu. split.
  - intros Hne. unfold delete_post, owner_or_root. run. rewrite Hp, Hu.
    by branches.
  - intros commentId comment Hc Hne.
    unfold delete_comment, owner_or_root. run. rewrite Hp, Hc, Hu.
    by branches.
Qed.

Lemma stranger_without_user_doc_witness :
  ((delete_post "eve" "p1" Sample.world).2 =
     {| status := 500; json := Msg "Server error" |}
   ∧ Posts (delete_post "eve" "p1" Sample.world).1 = Posts Sample.world)
  ∧ ((delete_comment "eve" "p1" "c1" Sample.world).2 =
       {| status := 500; json := Msg "Server error" |}
     ∧ Posts (delete_comment "eve" "p1" "c1" Sample.world).1
       = Posts Sample.world).
Proof.
  destruct (stranger_without_user_doc Sample.world "eve" "p1" Sample.p1
              eq_refl eq_refl) as [H1 H2].
  split; [apply H1; discriminate|].
  apply (H2 "c1" Sample.c1); [reflexivity|discriminate].
Defined.

(** X24: the owner of a post is served by DELETE /api/posts/:postId
    whatever the users collection holds, since the role is read only when
    the requester is not the owner: the post is removed and the answer is
    200 'Post deleted'. *)
Theorem owner_deletes_without_role_lookup w userId postId post :
  Posts w !! postId = Some post → user post = userId →
  delete_post userId postId w =
    (set_Posts (delete postId (Posts w)) w,
     {| status := 200; json := Msg "Post deleted" |}).
Proof.
  intros Hp Ho. unfold delete_post, owner_or_root. run. rewrite Hp.
  rewrite decide_True by done. simpl. by destruct (Users w !! userId).
Qed.

Lemma owner_deletes_without_role_lookup_witness :
  delete_post "carol" "p3" Sample.world =
    (set_Posts (delete "p3" (Posts Sample.world)) Sample.world,
     {| status := 200; json := Msg "Post deleted" |}).
Proof.
  apply (owner_deletes_without_role_lookup Sample.world "carol" "p3"
           Sample.p3); reflexivity.
Defined.

(** ** The front end's comment item and the route behind it *)

(** X25: the delete icon of a comment item is rendered only for the author
    of the comment, and a deletion sent by the user the icon was rendered
    for is never refused: when the post exists and the comment is the one
    found under its id, the route answers 200 and stores the comments
    without it.  Without a logged-in user there is no icon. *)
Theorem trash_icon_is_honoured w user_id postId post comment :
  Posts w !! postId = Some post →
  JS.find (λ c, comment_id c = comment_id comment) (comments post)
    = Some comment →
  CommentItem.trash_icon (Some user_id)
    (comment, Users w !! comment_user comment) = Some true →
  user_id = comment_user comment
  ∧ status (CommentItem.mutation user_id postId
              (comment, Users w !! comment_user comment) w).2 = 200
  ∧ Posts (CommentItem.mutation user_id postId
             (comment, Users w !! comment_user comment) w).1
    = <[postId := set_comments
          (remove_first (λ c, comment_id c = comment_id comment)
             (comments post)) post]> (Posts w)
  ∧ CommentItem.trash_icon None (comment, Users w !! comment_user comment)
    ≠ Some true.
Proof.
  intros Hp Hc Hicon. unfold CommentItem.trash_icon in *. simpl in *.
  destruct (Users w !! comment_user comment) as [author|]; [|done].
  injection Hicon as Hicon. apply bool_decide_eq_true in Hicon as ->.
  unfold CommentItem.mutation. simpl.
  rewrite (delete_comment_by_author _ _ _ _ _ _ Hp Hc eq_refl). simpl.
  split_and!; [done|done|by case_decide|done].
Qed.

Lemma trash_icon_is_honoured_witness :
  status (CommentItem.mutation "bob" "p1"
            (Sample.c1, Users Sample.world !! comment_user Sample.c1)
            Sample.world).2 = 200.
Proof.
  apply (trash_icon_is_honoured Sample.world "bob" "p1" Sample.p1 Sample.c1);
    reflexivity.
Defined.

(** X26: the icon is narrower than the route: a user with role 'root' who
    did not write the comment gets no icon, yet the route would delete the
    comment for them. *)
Theorem root_has_no_trash_icon w user_id postId post comment requester author :
  Posts w !! postId = Some post →
  JS.find (λ c, comment_id c = comment_id comment) (comments post)
    = Some comment →
  Users w !! user_id = Some requester → role requester = "root" →
  Users w !! comment_user comment = Some author →
  user_id ≠ comment_user comment →
  CommentItem.trash_icon (Some user_id) (comment, Some author) = Some false
  ∧ status (CommentItem.mutation user_id postId (comment, Some author) w).2
    = 200.
Proof.
  intros Hp Hc Hu Hr Ha Hne. split.
  - unfold CommentItem.trash_icon. simpl. by rewrite bool_decide_eq_false_2.
  - unfold CommentItem.mutation. simpl.
    rewrite (delete_comment_found _ _ _ _ _ _ _ Hp Hc Hu).
    rewrite decide_True by by right. done.
Qed.

Lemma root_has_no_trash_icon_witness :
  CommentItem.trash_icon (Some "dave") (Sample.c1, Some Sample.member)
    = Some false
  ∧ status (CommentItem.mutation "dave" "p1"
              (Sample.c1, Some Sample.member) Sample.world).2 = 200.
Proof.
  apply (root_has_no_trash_icon Sample.world "dave" "p1" Sample.p1 Sample.c1
           Sample.admin Sample.member); try reflexivity.
  discriminate.
Defined.

(** ** What stays of a post *)

(** X27: no request rewrites a stored post: as long as the post is stored,
    its owner, title, description, images, live demo, tech stack, source
    code and creation time are what they were, and its [views] never go
    down and go up by at most one per request. *)
Theorem post_content_is_immutable JSON_parse r w id post post' :
  Posts w !! id = Some post →
  Posts (handle JSON_parse r w).1 !! id = Some post' →
  user post' = user post ∧ title post' = title post
  ∧ description post' = description post ∧ images post' = images post
  ∧ liveDemo post' = liveDemo post ∧ techStack post' = techStack post
  ∧ sourceCode post' = sourceCode post ∧ createdAt post' = createdAt post
  ∧ views post ≤ views post' ≤ views post + 1.
Proof.
  intros Hp.
  destruct r as [u b f i t|p l|u p l|u|i|u i|u i|u i|i|u i t c n|u i c]; simpl.
  - unfold post_posts. run. branches.
    all: intros H'; rewrite ?lookup_insert in H'; repeat case_decide;
      simplify_eq/=; split_and!; (done || lia).
  - unfold get_posts, Post.exec. run. branches.
    all: intros H'; simplify_eq/=; split_and!; (done || lia).
  - unfold get_feed, Post.exec. run. branches.
    all: intros H'; simplify_eq/=; split_and!; (done || lia).
  - unfold get_saves, Post.exec. run. branches.
    all: intros H'; simplify_eq/=; split_and!; (done || lia).
  - unfold get_post. run. branches.
    all: intros H'; rewrite ?lookup_insert in H'; repeat case_decide;
      simplify_eq/=; split_and!; (done || lia).
  - unfold delete_post, owner_or_root. run. branches.
    all: intros H'; rewrite ?lookup_delete in H'; repeat case_decide;
      simplify_eq/=; split_and!; (done || lia).
  - unfold put_like. run. branches.
    all: intros H'; rewrite ?lookup_insert in H'; repeat case_decide;
      simplify_eq/=; split_and!; (done || lia).
  - unfold put_save. run. branches.
    all: intros H'; rewrite ?lookup_insert in H'; repeat case_decide;
      simplify_eq/=; split_and!; (done || lia).
  - unfold get_likes. run. branches.
    all: intros H'; simplify_eq/=; split_and!; (done || lia).
  - unfold post_comment. run. branches.
    all: intros H'; rewrite ?lookup_insert in H'; repeat case_decide;
      simplify_eq/=; split_and!; (done || lia).
  - unfold delete_comment, owner_or_root. run. branches.
    all: intros H'; rewrite ?lookup_insert in H'; repeat case_decide;
      simplify_eq/=; split_and!; (done || lia).
Qed.

Lemma post_content_is_immutable_witness :
  user (set_views 4 Sample.p1) = user Sample.p1
  ∧ title (set_views 4 Sample.p1) = title Sample.p1
  ∧ description (set_views 4 Sample.p1) = description Sample.p1
  ∧ images (set_views 4 Sample.p1) = images Sample.p1
  ∧ liveDemo (set_views 4 Sample.p1) = liveDemo Sample.p1
  ∧ techStack (set_views 4 Sample.p1) = techStack Sample.p1
  ∧ sourceCode (set_views 4 Sample.p1) = sourceCode Sample.p1
  ∧ createdAt (set_views 4 Sample.p1) = createdAt Sample.p1
  ∧ views Sample.p1 ≤ views (set_views 4 Sample.p1) ≤ views Sample.p1 + 1.
Proof.
  apply (post_content_is_immutable (λ _, None) (GetPost "p1") Sample.world
           "p1" Sample.p1 (set_views 4 Sample.p1)); reflexivity.
Defined.

(** X28: a post that POST /api/posts has just stored is served by GET
    /api/posts/:postId under its new id: the answer is 200 with that post,
    its owner's document, and one view more than it was stored with. *)
Theorem created_post_is_served
    JSON_parse w userId body files newId now stack :
  files ≠ [] → JSON_parse (body_techStack body) = Some stack →
  Posts w !! newId = None →
  let w' := (post_posts JSON_parse userId body files newId now w).1 in
  ∃ post,
    (post_posts JSON_parse userId body files newId now w).2 =
      {| status := 201; json := JPost post |}
    ∧ (get_post newId w').2 =
        {| status := 200;
           json := JPostPopulated (set_views (views post + 1) post)
                     (Users w !! userId)
                     ((λ c, Users w !! comment_user c) <$> comments post) |}.
Proof.
  intros Hf Hj Hfresh w'. unfold w'.
  rewrite (post_posts_created _ _ _ _ _ _ _ _ Hf Hj Hfresh). simpl.
  eexists. split; [done|].
  erewrite get_post_found; [|simpl; apply lookup_insert_eq].
  simpl. by do 2 f_equal.
Qed.

Lemma created_post_is_served_witness :
  status (get_post Wire.absent_id
            (post_posts Wire.parse "bob"
               {| body_title := "t"; body_description := "d";
                  body_liveDemo := ""; body_sourceCode := None;
                  body_techStack := Wire.js_stack |}
               [ {| path := "a.png" |} ] Wire.absent_id 99
               Sample.world).1).2 = 200.
Proof.
  destruct (created_post_is_served Wire.parse Sample.world "bob"
              {| body_title := "t"; body_description := "d";
                 body_liveDemo := ""; body_sourceCode := None;
                 body_techStack := Wire.js_stack |}
              [ {| path := "a.png" |} ] Wire.absent_id 99 ["js"])
    as (post & _ & H); [done|reflexivity|reflexivity|].
  by rewrite H.
Defined.
